(** * Request logger and health endpoint of the NestJS monorepo

    A shallow embedding of [libs/modules/global/logger/service.ts]
    (class [LoggerService]) and of the contract exercised by
    [apps/main-api/src/modules/health/__tests__/controller.e2e.spec.ts].

    Layout:
    - [Js]      the JavaScript values the service inspects at run time
                (typeof, truthiness, optional chaining, spread, calls);
    - [Luxon]   the date formatting behind [getDateFormat];
    - [Logger]  the service itself, as a state-and-exception monad over the
                service instance, the clock and the identifier generator;
    - [Health]  the health endpoint, whose controller is not among the
                sources and is modelled from the specification;
    - [Messages] the message operations [log], [trace], [info] and [warn]
                and the rest of the pino-http configuration. *)

From Stdlib Require Import ZArith String Ascii List Bool Lia.
From Stdlib Require Import DecimalString DecimalNat.
Import ListNotations.

Set Warnings "-register-all".

Local Open Scope string_scope.
Local Open Scope Z_scope.

(* ===================================================================== *)
(** ** JavaScript values *)
(* ===================================================================== *)

Module Js.

(** Values that reach the logger.  An object is the ordered list of the
    properties that a property access on it can see; a function value is a
    nullary method whose call either returns or throws a fixed value (the
    accessors [getResponse] and [getStatus] of an exception are of that
    kind).  Properties are data properties under string keys; an object
    that lists no [toString] or [valueOf] has those of [Object.prototype],
    and a function has those of [Function.prototype]. *)
Inductive JsVal : Type :=
| VUndefined
| VNull
| VBool (b : bool)
| VNum (n : Z)
| VStr (s : string)
| VObj (props : list (string * JsVal))
| VFun (name : string) (body : Completion)
with Completion : Type :=
| Return (v : JsVal)
| Raise (v : JsVal).

(** What a failing evaluation throws: a [TypeError] of the engine (calling
    a non-function, reading a property of [undefined] or [null]) or a value
    thrown by user code. *)
Inductive Exn : Type :=
| TypeErrorExn (what : string)
| UserExn (v : JsVal).

Inductive Result (A : Type) : Type :=
| Ok (a : A)
| Thrown (e : Exn).
Arguments Ok {A} a.
Arguments Thrown {A} e.

(** [typeof v] *)
Definition typeof (v : JsVal) : string :=
  match v with
  | VUndefined => "undefined"
  | VNull => "object"
  | VBool _ => "boolean"
  | VNum _ => "number"
  | VStr _ => "string"
  | VObj _ => "object"
  | VFun _ _ => "function"
  end.

(** [Boolean(v)] *)
Definition truthy (v : JsVal) : bool :=
  match v with
  | VUndefined | VNull => false
  | VBool b => b
  | VNum n => negb (n =? 0)
  | VStr s => negb (String.eqb s "")
  | VObj _ | VFun _ _ => true
  end.

(** [v === 'lit'] for a string literal. *)
Definition strict_eq_str (v : JsVal) (lit : string) : bool :=
  match v with
  | VStr s => String.eqb s lit
  | _ => false
  end.

Fixpoint assoc (k : string) (props : list (string * JsVal)) : option JsVal :=
  match props with
  | [] => None
  | (k', v) :: rest => if String.eqb k' k then Some v else assoc k rest
  end.

(** [o[k] = v] on an object literal under construction: an existing key
    keeps its position, a new key goes last. *)
Fixpoint set_prop (k : string) (v : JsVal) (props : list (string * JsVal))
  : list (string * JsVal) :=
  match props with
  | [] => [(k, v)]
  | (k', v') :: rest =>
      if String.eqb k' k then (k', v) :: rest else (k', v') :: set_prop k v rest
  end.

(** Copy the properties [src] over [dst], left to right
    ([Object.assign], and a run of [key: value] entries in a literal). *)
Definition assign (dst src : list (string * JsVal)) : list (string * JsVal) :=
  fold_left (fun acc kv => set_prop (fst kv) (snd kv) acc) src dst.

(** [v.k] on a value that is neither [undefined] nor [null].  Primitive
    strings, numbers and booleans have none of the properties the service
    reads; a function has its [name]. *)
Definition get_prop (v : JsVal) (k : string) : JsVal :=
  match v with
  | VObj props => match assoc k props with Some x => x | None => VUndefined end
  | VFun name _ => if String.eqb k "name" then VStr name else VUndefined
  | _ => VUndefined
  end.

Definition nullish (v : JsVal) : bool :=
  match v with
  | VUndefined | VNull => true
  | _ => false
  end.

(** [v?.k] *)
Definition get_opt (v : JsVal) (k : string) : JsVal :=
  if nullish v then VUndefined else get_prop v k.

(** [v.k], which throws on [undefined] and [null]. *)
Definition get (v : JsVal) (k : string) : Result JsVal :=
  if nullish v
  then Thrown (TypeErrorExn ("Cannot read properties of " ++
                             (match v with VNull => "null" | _ => "undefined" end)
                             ++ " (reading '" ++ k ++ "')"))
  else Ok (get_prop v k).

(** [f()] for a value [f] *)
Definition call (what : string) (f : JsVal) : Result JsVal :=
  match f with
  | VFun _ (Return v) => Ok v
  | VFun _ (Raise v) => Thrown (UserExn v)
  | _ => Thrown (TypeErrorExn (what ++ " is not a function"))
  end.

(** [v.k()] *)
Definition call_method (v : JsVal) (k : string) : Result JsVal :=
  match get v k with
  | Ok f => call k f
  | Thrown e => Thrown e
  end.

(** Characters of a string as the indexed properties ["0"], ["1"], ... *)
Fixpoint string_props (i : nat) (s : string) : list (string * JsVal) :=
  match s with
  | EmptyString => []
  | String c rest =>
      (NilZero.string_of_uint (Nat.to_uint i), VStr (String c EmptyString))
        :: string_props (S i) rest
  end.

(** The properties that [{...v}] copies: those of an object, the indexed
    characters of a string, nothing for any other value. *)
Definition spread (v : JsVal) : list (string * JsVal) :=
  match v with
  | VObj props => props
  | VStr s => string_props 0 s
  | _ => []
  end.

(** [[a, b, ...].find(Boolean)] *)
Definition find_truthy (vs : list JsVal) : JsVal :=
  match find truthy vs with
  | Some v => v
  | None => VUndefined
  end.

Definition is_object (v : JsVal) : bool :=
  match v with
  | VObj _ | VFun _ _ => true
  | _ => false
  end.

(** What an object converts to: a value that is no object, or the source
    text of a function.  The engine chooses that text; it is longer than
    an identifier, so it is none of the names the service compares a
    value with nor any it looks up. *)
Inductive Primitive : Type :=
| PValue (v : JsVal)
| PSource (name : string) (body : Completion).

(** One method of the conversion of an object to a primitive: the method
    [m] among the properties [props], or else the inherited one, which
    [inherited] stands for.  [Ok (Some r)] is the primitive the method
    returned; [Ok None] says to go on to the next method, because [m] is
    not callable or returned an object. *)
Definition try_method (props : list (string * JsVal)) (m : string)
    (inherited : option JsVal) : Result (option JsVal) :=
  match assoc m props with
  | Some (VFun _ (Return r)) => if is_object r then Ok None else Ok (Some r)
  | Some (VFun _ (Raise e)) => Thrown (UserExn e)
  | Some _ => Ok None
  | None => Ok inherited
  end.

(** [ToPrimitive(v, hint)]: for an object [valueOf] then [toString], or
    [toString] then [valueOf] under the hint string; a [TypeError] when
    neither gives a primitive.  The inherited [valueOf] returns the object
    itself, the inherited [toString] of an object ["[object Object]"]. *)
Definition to_primitive (hint_string : bool) (v : JsVal) : Result Primitive :=
  match v with
  | VObj props =>
      let valueOf := try_method props "valueOf" None in
      let toString := try_method props "toString" (Some (VStr "[object Object]")) in
      match (if hint_string then toString else valueOf) with
      | Thrown e => Thrown e
      | Ok (Some r) => Ok (PValue r)
      | Ok None =>
          match (if hint_string then valueOf else toString) with
          | Thrown e => Thrown e
          | Ok (Some r) => Ok (PValue r)
          | Ok None =>
              Thrown (TypeErrorExn "Cannot convert object to primitive value")
          end
      end
  | VFun name body => Ok (PSource name body)
  | _ => Ok (PValue v)
  end.

(** [v == 'lit'] for a string literal that is no numeral.  An object or a
    function is converted to a primitive first, which may throw; among
    primitives the comparison succeeds on the same string only:
    [undefined] and [null] equal nothing but each other, and booleans and
    numbers compare as numbers with [NaN]. *)
Definition loose_eq_str (v : JsVal) (lit : string) : Result bool :=
  match to_primitive false v with
  | Thrown e => Thrown e
  | Ok (PValue p) => Ok (strict_eq_str p lit)
  | Ok (PSource _ _) => Ok false
  end.

(** Names every object literal inherits from [Object.prototype]; a lookup
    by a computed key sees them. *)
Definition Object_prototype_names : list string :=
  [ "constructor"; "__proto__"; "hasOwnProperty"; "isPrototypeOf";
    "propertyIsEnumerable"; "toLocaleString"; "toString"; "valueOf";
    "__defineGetter__"; "__defineSetter__"; "__lookupGetter__";
    "__lookupSetter__" ].

(** The member of [Object.prototype] under one of those names: under
    [__proto__] the prototype of the literal, [Object.prototype] itself,
    an object without enumerable property; the function [Object] under
    [constructor]; a function named after the member otherwise.  The
    service never calls these functions, so what they do is not
    modelled. *)
Definition inherited_member (k : string) : JsVal :=
  if String.eqb k "__proto__" then VObj []
  else if String.eqb k "constructor" then VFun "Object" (Return VUndefined)
  else VFun k (Return VUndefined).

(** [literal[k]] for an object literal [literal] and a string [k]: the
    own property, else the inherited member, else [undefined]. *)
Definition member (literal : list (string * JsVal)) (k : string) : JsVal :=
  match assoc k literal with
  | Some v => v
  | None =>
      if existsb (String.eqb k) Object_prototype_names
      then inherited_member k
      else VUndefined
  end.

Definition of_option (o : option string) : JsVal :=
  match o with
  | Some s => VStr s
  | None => VUndefined
  end.

End Js.

(* ===================================================================== *)
(** ** Date formatting *)
(* ===================================================================== *)

(** luxon is a library outside this repository.  The service uses one
    chain of calls, [DateTime.fromJSDate(date).setZone(zone).toFormat(format)],
    with the formats ['yyyy-MM'] and ['dd/MM/yyyy HH:mm:ss']; the model
    covers that chain: the calendar fields of an instant in a zone, and the
    zero-padded decimal tokens of those two formats.  A zone is taken as
    already resolved from its name. *)
Module Luxon.

(** A [DateTime] after [setZone]: the calendar fields in that zone. *)
Record DateTime : Type := mkDateTime {
  year : Z; month : Z; day : Z;
  hour : Z; minute : Z; second : Z
}.

(** A resolved time zone: minutes east of UTC at an instant given in
    milliseconds since the epoch. *)
Definition Zone : Type := Z -> Z.

Definition msPerDay : Z := 86400000.

(** Proleptic Gregorian date of a day counted from 1970-01-01. *)
Definition civil_from_days (days : Z) : Z * Z * Z :=
  let z := days + 719468 in
  let era := z / 146097 in
  let doe := z - era * 146097 in
  let yoe := (doe - doe / 1460 + doe / 36524 - doe / 146096) / 365 in
  let y := yoe + era * 400 in
  let doy := doe - (365 * yoe + yoe / 4 - yoe / 100) in
  let mp := (5 * doy + 2) / 153 in
  let d := doy - (153 * mp + 2) / 5 + 1 in
  let m := if mp <? 10 then mp + 3 else mp - 9 in
  (if m <=? 2 then y + 1 else y, m, d).

(** Day number, counted from 1970-01-01, of a proleptic Gregorian date. *)
Definition days_from_civil (y m d : Z) : Z :=
  let y' := if m <=? 2 then y - 1 else y in
  let era := y' / 400 in
  let yoe := y' - era * 400 in
  let mp := if 2 <? m then m - 3 else m + 9 in
  let doy := (153 * mp + 2) / 5 + d - 1 in
  let doe := yoe * 365 + yoe / 4 - yoe / 100 + doy in
  era * 146097 + doe - 719468.

(** Day number, counted from 1970-01-01, of an instant seen in a zone. *)
Definition local_day (date : Z) (zone : Zone) : Z :=
  (date + zone date * 60000) / msPerDay.

(** [DateTime.fromJSDate(date).setZone(zone)] *)
Definition fromJSDate_setZone (date : Z) (zone : Zone) : DateTime :=
  let local := date + zone date * 60000 in
  let '(y, m, d) := civil_from_days (local / msPerDay) in
  let ms := local mod msPerDay in
  {| year := y; month := m; day := d;
     hour := ms / 3600000;
     minute := (ms / 60000) mod 60;
     second := (ms / 1000) mod 60 |}.

Fixpoint zeros (n : nat) : string :=
  match n with
  | O => ""
  | S k => String "0" (zeros k)
  end.

(** Decimal digits of a value, left-padded with zeros to [n] characters,
    the sign of a negative value in front. *)
Definition padStart (input : Z) (n : nat) : string :=
  let digits := NilZero.string_of_uint (N.to_uint (Z.abs_N input)) in
  let padded := zeros (n - String.length digits) ++ digits in
  if input <? 0 then "-" ++ padded else padded.

(** [dt.toFormat(format)] for the tokens the service uses: [yyyy], [MM],
    [dd], [HH], [mm], [ss]; any other character stands for itself. *)
Fixpoint toFormat (dt : DateTime) (format : string) : string :=
  match format with
  | String "y" (String "y" (String "y" (String "y" rest))) =>
      padStart (year dt) 4 ++ toFormat dt rest
  | String "M" (String "M" rest) => padStart (month dt) 2 ++ toFormat dt rest
  | String "d" (String "d" rest) => padStart (day dt) 2 ++ toFormat dt rest
  | String "H" (String "H" rest) => padStart (hour dt) 2 ++ toFormat dt rest
  | String "m" (String "m" rest) => padStart (minute dt) 2 ++ toFormat dt rest
  | String "s" (String "s" rest) => padStart (second dt) 2 ++ toFormat dt rest
  | String c rest => String c (toFormat dt rest)
  | EmptyString => EmptyString
  end.

End Luxon.

(* ===================================================================== *)
(** ** The logger service *)
(* ===================================================================== *)

Module Logger.
Import Js.

(** [LevelWithSilent] of pino *)
Inductive LevelWithSilent : Type :=
| LTrace | LDebug | LInfo | LWarn | LError | LFatal | LSilent.

Definition label (l : LevelWithSilent) : string :=
  match l with
  | LTrace => "trace" | LDebug => "debug" | LInfo => "info" | LWarn => "warn"
  | LError => "error" | LFatal => "fatal" | LSilent => "silent"
  end.

(** The colour functions of colorette, kept symbolic. *)
Inductive Color : Type := Gray | Green | Red | Yellow.

(** One call [logger.<level>(obj, msg)] on the pino logger. *)
Record LogCall : Type := mkLogCall {
  level : LevelWithSilent;
  obj : list (string * JsVal);
  msg : Color * JsVal
}.

(** Options handed to [pinoElastic]. *)
Record ElasticOptions : Type := mkElasticOptions {
  index : string;
  consistency : string;
  node : string;
  es_version : Z;
  flush_bytes : Z
}.

(** The pino logger behind [this.pino.logger]: its level and bindings. *)
Record Pino : Type := mkPino {
  pino_level : LevelWithSilent;
  bindings : list (string * JsVal)
}.

(** The fields of a [LoggerService] instance; [pino] is unset until
    [connect], [app] until [setApplication]. *)
Record LoggerService : Type := mkLoggerService {
  elkUrl : string;
  app : JsVal;
  pino : option Pino;
  streamToElastic : ElasticOptions
}.

(** What the service reads and writes outside of itself: the clock
    ([new Date()], milliseconds since the epoch), the zone luxon resolves
    from [process.env.TZ], the number of identifiers drawn from the
    generator so far, and the calls made on the pino logger, oldest
    first. *)
Record World : Type := mkWorld {
  clock : Z;
  zone : Luxon.Zone;
  draws : nat;
  out : list LogCall
}.

Record State : Type := mkState {
  this : LoggerService;
  world : World
}.

(** Computations of the service: they read and change the state and may
    throw; the state reached when an exception is thrown is kept. *)
Definition M (A : Type) : Type := State -> Result A * State.

Definition ret {A} (a : A) : M A := fun st => (Ok a, st).

Definition bind {A B} (c : M A) (k : A -> M B) : M B :=
  fun st =>
    match c st with
    | (Ok a, st') => k a st'
    | (Thrown e, st') => (Thrown e, st')
    end.

Definition lift {A} (r : Result A) : M A := fun st => (r, st).

Definition gets {A} (f : State -> A) : M A := fun st => (Ok (f st), st).

Definition modify (f : State -> State) : M unit := fun st => (Ok tt, f st).

Declare Scope logger_scope.
Delimit Scope logger_scope with logger.
Notation "x <- c ;; k" := (bind c (fun x => k))
  (at level 100, c at next level, right associativity) : logger_scope.
Notation "c ;;; k" := (bind c (fun _ => k))
  (at level 100, right associativity) : logger_scope.
Local Open Scope logger_scope.

Definition set_pino (p : Pino) (st : State) : State :=
  {| this := {| elkUrl := elkUrl (this st); app := app (this st);
                pino := Some p; streamToElastic := streamToElastic (this st) |};
     world := world st |}.

Definition set_app (a : JsVal) (st : State) : State :=
  {| this := {| elkUrl := elkUrl (this st); app := a;
                pino := pino (this st); streamToElastic := streamToElastic (this st) |};
     world := world st |}.

Definition push_call (c : LogCall) (st : State) : State :=
  {| this := this st;
     world := {| clock := clock (world st); zone := zone (world st);
                 draws := draws (world st); out := out (world st) ++ [c] |} |}.

Definition next_draw (st : State) : State :=
  {| this := this st;
     world := {| clock := clock (world st); zone := zone (world st);
                 draws := S (draws (world st)); out := out (world st) |} |}.

(** [Error.name], [TypeError.name] *)
Definition Error_name : string := "Error".
Definition TypeError_name : string := "TypeError".

(** Modelled from the spec: the class [ApiException] lives in [libs/utils],
    which is not among the sources; [ApiException.name] is the name of that
    class, the application's global exception type. *)
Definition ApiException_name : string := "ApiException".

Definition defaultFormat : string := "dd/MM/yyyy HH:mm:ss".

Section Service.

(** The collaborators outside this repository are parameters of the
    service:
    - [InternalServerErrorException_getResponse x] is the value of
      [new InternalServerErrorException(x).getResponse()] of the web
      framework;
    - [ApiException_getResponse r status ctx] is the value of
      [new ApiException(r, status, ctx).getResponse()];
    - [uuid_source n] is the identifier the [n]-th call of [uuidv4]
      produces;
    - [pino_serialize k v] is what [bindings()] of pino gives back for a
      value [v] that [setBindings] was given under the key [k], and [None]
      when pino leaves that binding out. *)
Variable InternalServerErrorException_getResponse : JsVal -> JsVal.
Variable ApiException_getResponse : JsVal -> JsVal -> JsVal -> JsVal.
Variable uuid_source : nat -> string.
Variable pino_serialize : string -> JsVal -> option JsVal.

(** [uuidv4()] *)
Definition uuidv4 : M string :=
  fun st => (Ok (uuid_source (draws (world st))), next_draw st).

(** [this.pino.logger] *)
Definition pino_logger : M Pino :=
  fun st =>
    match pino (this st) with
    | Some p => (Ok p, st)
    | None =>
        (Thrown (TypeErrorExn "Cannot read properties of undefined (reading 'logger')"), st)
    end.

(** [getDateFormat(date = new Date(), format = 'dd/MM/yyyy HH:mm:ss')] *)
Definition getDateFormat (date : option Z) (format : option string) : M string :=
  fun st =>
    let d := match date with Some d => d | None => clock (world st) end in
    let f := match format with Some f => f | None => defaultFormat end in
    (Ok (Luxon.toFormat (Luxon.fromJSDate_setZone d (zone (world st))) f), st).

(** [constructor(elkUrl)]: the instance built when the clock and the zone
    are those of [w]. *)
Definition constructor (elkUrl : string) (w : World) : LoggerService :=
  let index :=
    "monorepo-logs-" ++
    Luxon.toFormat (Luxon.fromJSDate_setZone (clock w) (zone w)) "yyyy-MM" in
  {| elkUrl := elkUrl;
     app := VUndefined;
     pino := None;
     streamToElastic :=
       {| index := index; consistency := "one"; node := elkUrl;
          es_version := 7; flush_bytes := 1000 |} |}.

(** [connect(logLevel)] *)
Definition connect (logLevel : option LevelWithSilent) : M unit :=
  let lvl := match logLevel with Some l => l | None => LTrace end in
  modify (set_pino {| pino_level := lvl; bindings := [] |}).

(** [setApplication(app)] *)
Definition setApplication (app : string) : M unit :=
  modify (set_app (VStr app)).

(** [getTraceId(error)] *)
Definition getTraceId (err : JsVal) : M JsVal :=
  if String.eqb (typeof err) "string"
  then (u <- uuidv4 ;; ret (VStr u))
  else (own <- lift (get err "traceid") ;;
        logger <- pino_logger ;;
        ret (find_truthy [own; get_opt (VObj (bindings logger)) "tranceId"])).

(** One entry of the list built by [getErrorResponse]. *)
Record Entry : Type := mkEntry {
  conditional : bool;
  value : M JsVal
}.

(** The four [value] closures of [getErrorResponse], in source order. *)
Definition value_string (err : JsVal) : M JsVal :=
  ret (InternalServerErrorException_getResponse err).

Definition value_response_string (err : JsVal) : M JsVal :=
  r <- lift (call_method err "getResponse") ;;
  status <- lift (call_method err "getStatus") ;;
  own_status <- lift (get err "status") ;;
  context <- lift (get err "context") ;;
  ret (ApiException_getResponse r (find_truthy [status; own_status]) context).

Definition value_response_object (err : JsVal) : M JsVal :=
  if nullish err then ret VUndefined else lift (call_method err "getResponse").

Definition value_named_error (err : JsVal) : M JsVal :=
  m <- lift (get err "message") ;;
  ret (InternalServerErrorException_getResponse m).

(** [isFunction && typeof error.getResponse() === t] *)
Definition response_has_type (isFunction : bool) (err : JsVal) (t : string) : M bool :=
  if isFunction
  then (r <- lift (call_method err "getResponse") ;; ret (String.eqb (typeof r) t))
  else ret false.

(** [getErrorResponse(error)]: [None] is the [undefined] that [find]
    returns when no entry has a true [conditional]. *)
Definition getErrorResponse (err : JsVal) : M (option Entry) :=
  let isFunction := String.eqb (typeof (get_opt err "getResponse")) "function" in
  c2 <- response_has_type isFunction err "string" ;;
  c3 <- response_has_type isFunction err "object" ;;
  c4 <- lift (loose_eq_str (get_opt err "name") TypeError_name) ;;
  ret (find conditional
         [ {| conditional := String.eqb (typeof err) "string";
              value := value_string err |};
           {| conditional := c2;
              value := value_response_string err |};
           {| conditional := c3;
              value := value_response_object err |};
           {| conditional :=
                existsb (fun b : bool => b)
                  [ strict_eq_str (get_opt err "name") Error_name; c4 ];
              value := value_named_error err |} ]).

(** [{ Error: ApiException.name }[name]]: the computed key is converted to
    a property key first, an object through its [toString], which may
    throw.  A primitive that is no string converts to [undefined], [null],
    [true], [false] or a numeral, and a function to its source text: none
    of them is [Error] or the name of a member of [Object.prototype]. *)
Definition type_literal (name : JsVal) : Result JsVal :=
  match to_primitive true name with
  | Thrown e => Thrown e
  | Ok (PValue (VStr k)) => Ok (member [("Error", VStr ApiException_name)] k)
  | Ok _ => Ok VUndefined
  end.

(** [this.pino.logger.<lvl>(o, colour(message))] on the logger [logger] *)
Definition pino_log (logger : Pino) (lvl : LevelWithSilent)
    (o : list (string * JsVal)) (m : Color * JsVal) : M unit :=
  modify (push_call {| level := lvl; obj := o; msg := m |}).

(** [error(error, message?, context?)] *)
Definition error (err : JsVal) (message context : option string) : M unit :=
  errorResponse <- getErrorResponse err ;;
  response <-
    (if strict_eq_str (get_opt err "name") ApiException_name
     then (statusCode <- lift (get err "statusCode") ;;
           ret (VObj [("statusCode", statusCode); ("message", get_opt err "message")]))
     else match errorResponse with
          | Some e => value e
          | None => ret VUndefined
          end) ;;
  type <- lift (type_literal (get_opt err "name")) ;;
  logger <- pino_logger ;;
  application <- gets (fun st => app (this st)) ;;
  traceid <- getTraceId err ;;
  timestamp <- getDateFormat None None ;;
  stack <- lift (get err "stack") ;;
  pino_log logger LError
    (assign (spread response)
       [ ("context", find_truthy [of_option context; application]);
         ("type", find_truthy [type; get_opt err "name"]);
         ("traceid", traceid);
         ("timestamp", VStr timestamp);
         ("application", application);
         ("stack", stack) ])
    (Red, of_option message).

(** [fatal(error, message?, context?)] *)
Definition fatal (err : JsVal) (message context : option string) : M unit :=
  logger <- pino_logger ;;
  response <- lift (call_method err "getResponse") ;;
  application <- gets (fun st => app (this st)) ;;
  name <- lift (get err "name") ;;
  traceid <- getTraceId err ;;
  timestamp <- getDateFormat None None ;;
  stack <- lift (get err "stack") ;;
  pino_log logger LFatal
    (assign (spread response)
       [ ("context", find_truthy [of_option context; application]);
         ("type", name);
         ("traceid", traceid);
         ("timestamp", VStr timestamp);
         ("application", application);
         ("stack", stack) ])
    (Red, of_option message).

(** The request object pino-http hands to [customProps]. *)
Record Request : Type := mkRequest {
  req_context : JsVal;
  req_headers_traceid : JsVal;
  req_headers_host : string;
  req_id : JsVal;
  req_protocol : string;
  req_url : string
}.

(** One binding added by [setBindings]: pino serializes the value under
    its key and appends it to the bindings it holds, unless it leaves the
    binding out; read back, a later binding replaces an earlier one of the
    same key. *)
Definition bind_one (acc : list (string * JsVal)) (kv : string * JsVal)
  : list (string * JsVal) :=
  match pino_serialize (fst kv) (snd kv) with
  | Some v => set_prop (fst kv) v acc
  | None => acc
  end.

(** [logger.setBindings(b)] *)
Definition setBindings (b : list (string * JsVal)) : M unit :=
  logger <- pino_logger ;;
  modify (set_pino {| pino_level := pino_level logger;
                      bindings := fold_left bind_one b (bindings logger) |}).

(** [customProps(request)] of the pino-http configuration *)
Definition customProps (request : Request) : M (list (string * JsVal)) :=
  let context := req_context request in
  let traceid := find_truthy [req_headers_traceid request; req_id request] in
  let path := req_protocol request ++ "://" ++ req_headers_host request
              ++ req_url request in
  logger <- pino_logger ;;
  application <- gets (fun st => app (this st)) ;;
  bound_at <- getDateFormat None None ;;
  setBindings [ ("traceid", traceid); ("application", application);
                ("context", context); ("path", VStr path);
                ("timestamp", VStr bound_at) ] ;;;
  application' <- gets (fun st => app (this st)) ;;
  timestamp <- getDateFormat None None ;;
  ret [ ("traceid", traceid); ("application", application');
        ("context", context); ("path", VStr path);
        ("timestamp", VStr timestamp) ].

(** The response object pino-http hands to [customLogLevel]. *)
Record Response : Type := mkResponse {
  statusCode : Z
}.

(** [customLogLevel(res, error)] of the pino-http configuration *)
Definition customLogLevel (res : Response) (err : JsVal) : LevelWithSilent :=
  if existsb truthy [VBool (400 <=? statusCode res); err] then LError
  else if forallb truthy [VBool (300 <=? statusCode res);
                          VBool (statusCode res <=? 400)] then LSilent
  else LInfo.

End Service.

End Logger.

(* ===================================================================== *)
(** ** Reference collaborators *)
(* ===================================================================== *)

(** One concrete choice of the collaborators, on which the service can be
    run: the exception bodies the web framework builds, an application
    exception whose response accessor gives back what it was built from,
    and an identifier generator that numbers its draws. *)
Module Reference.
Import Js Logger.

(** [HttpException.createBody(objectOrError, description, statusCode)] *)
Definition createBody (objectOrError : JsVal) (description : string)
    (statusCode : Z) : JsVal :=
  if negb (truthy objectOrError)
  then VObj [("statusCode", VNum statusCode); ("message", VStr description)]
  else match objectOrError with
       | VObj props => VObj props
       | _ => VObj [("statusCode", VNum statusCode);
                    ("message", objectOrError);
                    ("error", VStr description)]
       end.

Definition InternalServerErrorException_getResponse (x : JsVal) : JsVal :=
  createBody x "Internal Server Error" 500.

Definition ApiException_getResponse (r status ctx : JsVal) : JsVal := r.

Definition uuid_source (n : nat) : string :=
  "id-" ++ NilEmpty.string_of_uint (Nat.to_uint n).

(** pino leaves out a binding whose value is [undefined] or a function and
    those under the keys it reserves, and [bindings()] drops [pid] and
    [hostname]; strings, numbers, booleans and [null] come back as they
    went in.  An object goes through [JSON.stringify]; the reference keeps
    it as it is. *)
Definition pino_serialize (k : string) (v : JsVal) : option JsVal :=
  if existsb (String.eqb k)
       ["level"; "serializers"; "formatters"; "customLevels"; "pid"; "hostname"]
  then None
  else match v with
       | VUndefined | VFun _ _ => None
       | _ => Some v
       end.

Definition customProps := Logger.customProps pino_serialize.

Definition error := Logger.error InternalServerErrorException_getResponse
                      ApiException_getResponse uuid_source.
Definition fatal := Logger.fatal uuid_source.
Definition getTraceId := Logger.getTraceId uuid_source.
Definition getErrorResponse :=
  Logger.getErrorResponse InternalServerErrorException_getResponse
    ApiException_getResponse.

(** A world at 2024-05-15T12:00:00Z in UTC, and a service built there,
    connected at level [trace] and named [main-api]. *)
Definition noon : World :=
  {| clock := 1715774400000; zone := fun _ => 0; draws := O; out := [] |}.

Definition fresh : State :=
  {| this := constructor "http://elk:9200" noon; world := noon |}.

Definition ready : State :=
  snd ((connect (Some LTrace) ;;; setApplication "main-api")%logger fresh).

(** Sample values: a plain [Error], a [RangeError], a value named [Error]
    that also exposes a response accessor, and a request carrying a trace
    id header. *)
Definition plain_error : JsVal :=
  VObj [("name", VStr "Error"); ("message", VStr "boom");
        ("stack", VStr "Error: boom")].

Definition range_error : JsVal :=
  VObj [("name", VStr "RangeError"); ("message", VStr "boom");
        ("stack", VStr "RangeError: boom")].

Definition named_error_with_accessor : JsVal :=
  VObj [("name", VStr "Error"); ("message", VStr "x");
        ("getResponse",
         VFun "getResponse"
           (Return (VObj [("statusCode", VNum 404); ("message", VStr "nf")])))].


(** A value without response accessor whose name is an object that
    cannot be converted: its [toString] throws. *)
Definition unconvertible_name_error : JsVal :=
  VObj [("name", VObj [("toString", VFun "toString" (Raise (VStr "x")))]);
        ("message", VStr "m")].

Definition traced_request : Request :=
  {| req_context := VStr "HealthController";
     req_headers_traceid := VStr "abc";
     req_headers_host := "localhost:3000";
     req_id := VStr "abc";
     req_protocol := "http";
     req_url := "/health" |}.

Definition untraced_request : Request :=
  {| req_context := VStr "CatsController";
     req_headers_traceid := VUndefined;
     req_headers_host := "localhost:3000";
     req_id := VUndefined;
     req_protocol := "http";
     req_url := "/cats" |}.

(** The reference service after [customProps] ran on [traced_request]. *)
Definition bound : State := snd (customProps traced_request ready).

End Reference.

(* ===================================================================== *)
(** ** The health endpoint *)
(* ===================================================================== *)

Module Health.
Import Js.

(** Modelled from the spec: the health service, its controller, the
    exception filter and the application exception type [ApiException] are
    not among the sources; only the end-to-end test of the controller is.
    The specification gives their contract: [getText] returns the
    application name followed by [" UP!!"] or fails with an application
    error; [GET /health] answers 200 with that text, and on failure answers
    with the error's declared status code, 500 when none is declared, and
    the JSON body [{statusCode, message}]. *)
Record ApiException : Type := mkApiException {
  message : string;
  declared_status : option Z
}.

(** Modelled from the spec: [new ApiException(error, status?)], an
    application error with its message and the status it declares. *)
Definition new_ApiException (error : string) (status : option Z) : ApiException :=
  {| message := error; declared_status := status |}.

(** Modelled from the spec: the declared status code, 500 by default. *)
Definition getStatus (e : ApiException) : Z :=
  match declared_status e with
  | Some s => s
  | None => 500
  end.

(** Modelled from the spec: the outcome of [IHealthService.getText], the
    readiness text or the application error it fails with. *)
Definition getText (name : string) : ApiException + string :=
  inr (name ++ " UP!!").

Inductive Body : Type :=
| TextBody (text : string)
| JsonBody (fields : list (string * JsVal)).

Record HttpResponse : Type := mkHttpResponse {
  status : Z;
  body : Body
}.

(** Modelled from the spec: the answer of [GET /health], given the outcome
    of the service. *)
Definition getHealth (outcome : ApiException + string) : HttpResponse :=
  match outcome with
  | inr text => {| status := 200; body := TextBody text |}
  | inl e =>
      {| status := getStatus e;
         body := JsonBody [("statusCode", VNum (getStatus e));
                           ("message", VStr (message e))] |}
  end.

End Health.

(* ===================================================================== *)
(** ** The normalization order, as the specification words it and as the
       code tests it *)
(* ===================================================================== *)

Module Normalization.
Import Js Logger.

(** The four cases of the normalization, in the order the specification
    lists them. *)
Inductive Case : Type :=
| CaseString
| CaseResponseString
| CaseResponseObject
| CaseNamedError.


(** What the response accessor of a value gives: [Ok None] when the value
    exposes no function under [getResponse], [Ok (Some r)] when the
    accessor returns [r], [Thrown] when calling it throws. *)
Definition accessor (err : JsVal) : Result (option JsVal) :=
  if String.eqb (typeof (get_opt err "getResponse")) "function"
  then match call_method err "getResponse" with
       | Ok r => Ok (Some r)
       | Thrown e => Thrown e
       end
  else Ok None.

(** The condition of each case, for a value and what its accessor gave. *)
Definition case_holds (c : Case) (err : JsVal) (a : option JsVal) : bool :=
  match c with
  | CaseString => String.eqb (typeof err) "string"
  | CaseResponseString =>
      match a with Some r => String.eqb (typeof r) "string" | None => false end
  | CaseResponseObject =>
      match a with Some r => String.eqb (typeof r) "object" | None => false end
  | CaseNamedError =>
      strict_eq_str (get_opt err "name") "Error"
      || strict_eq_str (get_opt err "name") "TypeError"
  end.

(** Ordered, first match wins. *)
Definition first_match (err : JsVal) (a : option JsVal) : option Case :=
  if case_holds CaseString err a then Some CaseString
  else if case_holds CaseResponseString err a then Some CaseResponseString
  else if case_holds CaseResponseObject err a then Some CaseResponseObject
  else if case_holds CaseNamedError err a then Some CaseNamedError
  else None.

(** The conditions as the code tests them: the fourth is
    [error?.name === Error.name] or [error?.name == TypeError.name], and
    [loose] is what the second, loose comparison gave. *)
Definition case_tested (c : Case) (err : JsVal) (a : option JsVal)
    (loose : bool) : bool :=
  match c with
  | CaseNamedError => strict_eq_str (get_opt err "name") Error_name || loose
  | _ => case_holds c err a
  end.

Definition first_tested (err : JsVal) (a : option JsVal) (loose : bool)
  : option Case :=
  if case_tested CaseString err a loose then Some CaseString
  else if case_tested CaseResponseString err a loose then Some CaseResponseString
  else if case_tested CaseResponseObject err a loose then Some CaseResponseObject
  else if case_tested CaseNamedError err a loose then Some CaseNamedError
  else None.

(** What evaluating the conditions gives: the result of the response
    accessor and of the loose comparison of the name, or what the first of
    them to throw throws. *)
Definition tests (err : JsVal) : Result (option JsVal * bool) :=
  match accessor err with
  | Thrown e => Thrown e
  | Ok a =>
      match loose_eq_str (get_opt err "name") TypeError_name with
      | Thrown e => Thrown e
      | Ok loose => Ok (a, loose)
      end
  end.

Section Cases.
Variable InternalServerErrorException_getResponse : JsVal -> JsVal.
Variable ApiException_getResponse : JsVal -> JsVal -> JsVal -> JsVal.

(** The closure the service attaches to each case. *)
Definition case_value (c : Case) (err : JsVal) : M JsVal :=
  match c with
  | CaseString => value_string InternalServerErrorException_getResponse err
  | CaseResponseString => value_response_string ApiException_getResponse err
  | CaseResponseObject => value_response_object err
  | CaseNamedError => value_named_error InternalServerErrorException_getResponse err
  end.

Definition case_entry (c : Case) (err : JsVal) : Entry :=
  {| conditional := true; value := case_value c err |}.

(** What running the closure of a case gives; it leaves the state alone. *)
Definition case_result (c : Case) (err : JsVal) : Result JsVal :=
  match c with
  | CaseString => Ok (InternalServerErrorException_getResponse err)
  | CaseResponseString =>
      match call_method err "getResponse" with
      | Thrown e => Thrown e
      | Ok r =>
          match call_method err "getStatus" with
          | Thrown e => Thrown e
          | Ok status =>
              Ok (ApiException_getResponse r
                    (find_truthy [status; get_prop err "status"])
                    (get_prop err "context"))
          end
      end
  | CaseResponseObject =>
      if nullish err then Ok VUndefined else call_method err "getResponse"
  | CaseNamedError =>
      match get err "message" with
      | Thrown e => Thrown e
      | Ok m => Ok (InternalServerErrorException_getResponse m)
      end
  end.

(** The body the [error] operation spreads into the record: the value's
    own [statusCode] and [message] when it is named [ApiException], else
    what the first matching case gives, else [undefined]. *)
Definition response_of (err : JsVal) : Result JsVal :=
  match tests err with
  | Thrown e => Thrown e
  | Ok (a, loose) =>
      if strict_eq_str (get_opt err "name") ApiException_name
      then Ok (VObj [("statusCode", get_prop err "statusCode");
                     ("message", get_prop err "message")])
      else match first_tested err a loose with
           | Some c => case_result c err
           | None => Ok VUndefined
           end
  end.

End Cases.

(** The record the [error] operation hands to pino, given the body it
    spreads, what the lookup of the type gave and the trace id it
    resolved. *)
Definition error_record (err : JsVal) (message context : option string)
    (st : State) (response type traceid : JsVal) : LogCall :=
  {| level := LError;
     obj :=
       assign (spread response)
         [ ("context", find_truthy [of_option context; app (this st)]);
           ("type", find_truthy [type; get_opt err "name"]);
           ("traceid", traceid);
           ("timestamp",
            VStr (Luxon.toFormat
                    (Luxon.fromJSDate_setZone (clock (world st)) (zone (world st)))
                    defaultFormat));
           ("application", app (this st));
           ("stack", get_prop err "stack") ];
     msg := (Red, of_option message) |}.

(** The trace id [getTraceId] resolves for a value that is neither
    [undefined] nor [null] on a connected logger, and the state it leaves:
    one more identifier drawn for a string, nothing changed otherwise. *)
Definition resolved_traceid (uuid_source : nat -> string) (err : JsVal)
    (st : State) : JsVal :=
  if String.eqb (typeof err) "string"
  then VStr (uuid_source (draws (world st)))
  else find_truthy
         [ get_prop err "traceid";
           match pino (this st) with
           | Some p => get_opt (VObj (bindings p)) "tranceId"
           | None => VUndefined
           end ].

Definition after_traceid (err : JsVal) (st : State) : State :=
  if String.eqb (typeof err) "string" then next_draw st else st.

(** The keys the [error] and [fatal] operations write after the spread. *)
Definition written_keys : list string :=
  ["context"; "type"; "traceid"; "timestamp"; "application"; "stack"].

End Normalization.

(** Calendar day of the world, the way [Luxon.civil_from_days] counts. *)
Definition local_date (w : Logger.World) : Z * Z * Z :=
  Luxon.civil_from_days (Luxon.local_day (Logger.clock w) (Logger.zone w)).

(* ===================================================================== *)
(** ** The message operations and the rest of the pino-http configuration *)
(* ===================================================================== *)

Module Messages.
Import Js Logger.

(** [trace], [info] and [warn] change the object their caller passes
    ([Object.assign(obj, { context })]), so the objects callers hold are
    kept in a heap, addressed by reference, next to the state of the
    service. *)
Definition Heap : Type := nat -> list (string * JsVal).

Record Store : Type := mkStore {
  state : State;
  heap : Heap
}.

Definition H (A : Type) : Type := Store -> Result A * Store.

Definition hret {A} (a : A) : H A := fun s => (Ok a, s).

Definition hbind {A B} (c : H A) (k : A -> H B) : H B :=
  fun s =>
    match c s with
    | (Ok a, s') => k a s'
    | (Thrown e, s') => (Thrown e, s')
    end.

(** A computation of the service, run next to the heap. *)
Definition run {A} (c : M A) : H A :=
  fun s =>
    let (r, st') := c (state s) in
    (r, {| state := st'; heap := heap s |}).

Declare Scope message_scope.
Delimit Scope message_scope with message.
Notation "x <- c ;; k" := (hbind c (fun x => k))
  (at level 100, c at next level, right associativity) : message_scope.

Definition update (r : nat) (props : list (string * JsVal)) (h : Heap) : Heap :=
  fun r' => if Nat.eqb r' r then props else h r'.

(** The [obj] field of the argument: a reference to an object of the
    caller, or left out. *)
Inductive ObjArg : Type :=
| Given (ref : nat)
| Omitted.

(** The argument [{ message, context, obj = {} }: MessageType] *)
Record MessageType : Type := mkMessageType {
  message : string;
  context : option string;
  obj : ObjArg
}.

(** [Object.assign(obj, { context })], with the default [obj = {}] a fresh
    object no caller holds; gives the properties of [obj] afterwards. *)
Definition assign_context (arg : MessageType) : H (list (string * JsVal)) :=
  fun s =>
    let source := [("context", of_option (context arg))] in
    match obj arg with
    | Given r =>
        let props := assign (heap s r) source in
        (Ok props, {| state := state s; heap := update r props (heap s) |})
    | Omitted => (Ok (assign [] source), s)
    end.

(** [trace({ message, context, obj = {} })].  In
    [[obj, gray(message)].find(Boolean)] the object [obj] is truthy, so it
    is what [find] returns. *)
Definition trace (arg : MessageType) : H unit :=
  (props <- assign_context arg ;;
   logger <- run pino_logger ;;
   run (pino_log logger LTrace props (Gray, VStr (message arg))))%message.

(** [info({ message, context, obj = {} })] *)
Definition info (arg : MessageType) : H unit :=
  (props <- assign_context arg ;;
   logger <- run pino_logger ;;
   run (pino_log logger LInfo props (Green, VStr (message arg))))%message.

(** [warn({ message, context, obj = {} })] *)
Definition warn (arg : MessageType) : H unit :=
  (props <- assign_context arg ;;
   logger <- run pino_logger ;;
   run (pino_log logger LWarn props (Yellow, VStr (message arg))))%message.


(** [genReqId(request)] of the pino-http configuration *)
Definition genReqId (request : Request) : JsVal :=
  req_headers_traceid request.

(** A piece of a message: plain text, or text passed through one of the
    colour functions. *)
Inductive Segment : Type :=
| Plain (text : string)
| Painted (c : Color) (text : string).

(** [`${n}`] for an integer [n] *)
Definition number_to_string (n : Z) : string :=
  NilZero.string_of_int (Z.to_int n).

(** [customSuccessMessage(res)] of the pino-http configuration *)
Definition customSuccessMessage (res : Response) : list Segment :=
  [ Plain "request ";
    (if 400 <=? statusCode res then Painted Red "errro" else Painted Green "success");
    Plain " with status code: ";
    Plain (number_to_string (statusCode res)) ].

(** [customErrorMessage(error, res)] of the pino-http configuration *)
Definition customErrorMessage (err : JsVal) (res : Response) : list Segment :=
  [ Plain "request ";
    Painted Red "error";
    Plain " with status code: ";
    Plain (number_to_string (statusCode res));
    Plain " " ].

(** The keys [customProps] binds and returns. *)
Definition customProps_keys : list string :=
  ["traceid"; "application"; "context"; "path"; "timestamp"].

(** The record the [fatal] operation hands to pino for a value whose
    response accessor returned [response], on a logger [logger]. *)
Definition fatal_record (err : JsVal) (message context : option string)
    (st : State) (logger : Pino) (response : JsVal) : LogCall :=
  {| level := LFatal;
     Logger.obj :=
       assign (spread response)
         [ ("context", find_truthy [of_option context; app (this st)]);
           ("type", get_prop err "name");
           ("traceid",
            find_truthy [get_prop err "traceid";
                         get_opt (VObj (bindings logger)) "tranceId"]);
           ("timestamp",
            VStr (Luxon.toFormat
                    (Luxon.fromJSDate_setZone (clock (world st)) (zone (world st)))
                    defaultFormat));
           ("application", app (this st));
           ("stack", get_prop err "stack") ];
     msg := (Red, of_option message) |}.

(** The context a record gets: the one given when it is a non-empty
    string, else the application name when that is set. *)
Definition context_of (context : option string) (application : JsVal) : JsVal :=
  match context with
  | Some text =>
      if String.eqb text "" then find_truthy [application] else VStr text
  | None => find_truthy [application]
  end.

(** The properties of the object a message operation logs, given the heap
    it starts from: those of the caller's object, or none, with [context]
    assigned; and the heap it leaves. *)
Definition message_props (arg : MessageType) (h : Heap) : list (string * JsVal) :=
  assign (match obj arg with Given r => h r | Omitted => [] end)
    [("context", of_option (context arg))].

Definition heap_after (arg : MessageType) (h : Heap) : Heap :=
  match obj arg with
  | Given r => update r (message_props arg h) h
  | Omitted => h
  end.

(** The call a message operation makes on pino. *)
Definition message_call (lvl : LevelWithSilent) (c : Color) (arg : MessageType)
    (h : Heap) : LogCall :=
  {| level := lvl; Logger.obj := message_props arg h;
     msg := (c, VStr (message arg)) |}.

(** The properties [customProps] computes for a request, at the state it
    is called in. *)
Definition request_props (request : Request) (st : State) : list (string * JsVal) :=
  [ ("traceid", find_truthy [req_headers_traceid request; req_id request]);
    ("application", app (this st));
    ("context", req_context request);
    ("path", VStr (req_protocol request ++ "://" ++ req_headers_host request
                   ++ req_url request));
    ("timestamp",
     VStr (Luxon.toFormat
             (Luxon.fromJSDate_setZone (clock (world st)) (zone (world st)))
             defaultFormat)) ].

(** What a logging operation may do to the state it starts from, [st]: it
    either completes, having appended one record at its level to the calls
    on pino and drawn at most one identifier, or throws and leaves the
    state as it was.  The service instance, the clock and the zone stay
    the same either way. *)
Definition only_appends (lvl : LevelWithSilent) (st : State)
    (outcome : Result unit * State) : Prop :=
  match fst outcome with
  | Ok _ =>
      this (snd outcome) = this st /\
      clock (world (snd outcome)) = clock (world st) /\
      zone (world (snd outcome)) = zone (world st) /\
      (draws (world st) <= draws (world (snd outcome)) <= S (draws (world st)))%nat /\
      exists record,
        out (world (snd outcome)) = (out (world st) ++ [record])%list /\
        level record = lvl
  | Thrown _ => snd outcome = st
  end.


Definition forbidden_without_status : JsVal :=
  VObj [("name", VStr "HttpException");
        ("getResponse", VFun "getResponse" (Return (VStr "Forbidden")))].

Definition caller_heap : Heap :=
  fun r =>
    match r with
    | O => [("user", VStr "ana"); ("context", VStr "CatsController")]
    | _ => []
    end.

Definition ready_store : Store :=
  {| state := Reference.ready; heap := caller_heap |}.

Definition fresh_store : Store :=
  {| state := Reference.fresh; heap := caller_heap |}.

End Messages.

(* ===================================================================== *)
(** ** Properties *)
(* ===================================================================== *)

Import Js Logger Normalization.
Local Open Scope logger_scope.

(** *** Object literals *)

Lemma assoc_set_prop_same (k : string) (v : JsVal) (props : list (string * JsVal)) :
  assoc k (set_prop k v props) = Some v.
Proof.
  induction props as [|[k' v'] rest IH]; simpl.
  - now rewrite String.eqb_refl.
  - destruct (String.eqb k' k) eqn:E; simpl; rewrite E; auto.
Qed.

Lemma assoc_set_prop_other (k k' : string) (v : JsVal) (props : list (string * JsVal)) :
  k <> k' -> assoc k (set_prop k' v props) = assoc k props.
Proof.
  intros Hne.
  induction props as [|[k0 v0] rest IH]; simpl.
  - destruct (String.eqb k' k) eqn:E; auto.
    apply String.eqb_eq in E. congruence.
  - destruct (String.eqb k0 k') eqn:E; simpl.
    + apply String.eqb_eq in E. subst k0.
      destruct (String.eqb k' k) eqn:E'; auto.
      apply String.eqb_eq in E'. congruence.
    + now rewrite IH.
Qed.

Lemma assoc_assign_other (k : string) (src dst : list (string * JsVal)) :
  ~ In k (map fst src) -> assoc k (assign dst src) = assoc k dst.
Proof.
  unfold assign. revert dst.
  induction src as [|[k' v'] rest IH]; intros dst Hnot; simpl; auto.
  rewrite IH.
  - apply assoc_set_prop_other. intros ->. apply Hnot. now left.
  - intros Hin. apply Hnot. now right.
Qed.

Lemma assoc_assign_in (k : string) (src dst : list (string * JsVal)) :
  In k (map fst src) -> assoc k (assign dst src) = assoc k (assign [] src).
Proof.
  unfold assign. revert dst. generalize (@nil (string * JsVal)) as acc.
  induction src as [|[k' v'] rest IH]; intros acc dst Hin; simpl in *.
  - contradiction.
  - destruct (in_dec string_dec k (map fst rest)) as [Hrest|Hrest].
    + now apply IH.
    + destruct Hin as [->|Hin]; [|contradiction].
      fold (assign (set_prop k v' dst) rest). fold (assign (set_prop k v' acc) rest).
      rewrite !assoc_assign_other by assumption.
      now rewrite !assoc_set_prop_same.
Qed.

Lemma error_record_keeps (k : string) err m c st response ty traceid :
  ~ In k written_keys ->
  assoc k (obj (error_record err m c st response ty traceid)) =
  assoc k (spread response).
Proof.
  intros Hk. unfold error_record, obj. now apply assoc_assign_other.
Qed.

Lemma error_record_type err m c st response ty traceid :
  assoc "type" (obj (error_record err m c st response ty traceid)) =
  Some (find_truthy [ty; get_opt err "name"]).
Proof.
  unfold error_record, obj.
  rewrite assoc_assign_in by (simpl; tauto). reflexivity.
Qed.

Lemma error_record_traceid err m c st response ty traceid :
  assoc "traceid" (obj (error_record err m c st response ty traceid)) = Some traceid.
Proof.
  unfold error_record, obj.
  rewrite assoc_assign_in by (simpl; tauto). reflexivity.
Qed.

Lemma error_record_stack err m c st response ty traceid :
  assoc "stack" (obj (error_record err m c st response ty traceid)) =
  Some (get_prop err "stack").
Proof.
  unfold error_record, obj.
  rewrite assoc_assign_in by (simpl; tauto). reflexivity.
Qed.

Lemma statusCode_not_written : ~ In "statusCode" written_keys.
Proof. simpl. intuition discriminate. Qed.

Lemma message_not_written : ~ In "message" written_keys.
Proof. simpl. intuition discriminate. Qed.

(** *** Running the service *)

Section Runs.

Variable ISE : JsVal -> JsVal.
Variable Api : JsVal -> JsVal -> JsVal -> JsVal.
Variable uuid : nat -> string.

Lemma case_value_run (c : Case) (err : JsVal) (st : State) :
  case_value ISE Api c err st = (case_result ISE Api c err, st).
Proof.
  destruct c; simpl.
  - reflexivity.
  - unfold value_response_string, bind, lift, ret, call_method, get.
    destruct (nullish err); [reflexivity|].
    destruct (call "getResponse" (get_prop err "getResponse")); [|reflexivity].
    destruct (call "getStatus" (get_prop err "getStatus")); reflexivity.
  - unfold value_response_object. destruct (nullish err); reflexivity.
  - unfold value_named_error, bind, lift, ret.
    destruct (get err "message"); reflexivity.
Qed.

Lemma getErrorResponse_run (err : JsVal) (st : State) :
  getErrorResponse ISE Api err st =
  match tests err with
  | Thrown e => (Thrown e, st)
  | Ok (a, loose) =>
      (Ok (option_map (fun c => case_entry ISE Api c err) (first_tested err a loose)),
       st)
  end.
Proof.
  unfold getErrorResponse, tests, accessor, response_has_type, bind, ret, lift.
  destruct (String.eqb (typeof (get_opt err "getResponse")) "function").
  - destruct (call_method err "getResponse") as [r|e]; [|reflexivity].
    destruct (loose_eq_str (get_opt err "name") TypeError_name) as [loose|e];
      [|reflexivity].
    unfold first_tested, case_tested, case_holds; simpl.
    destruct (String.eqb (typeof err) "string"); [reflexivity|].
    destruct (String.eqb (typeof r) "string"); [reflexivity|].
    destruct (String.eqb (typeof r) "object"); [reflexivity|].
    rewrite orb_false_r.
    destruct (strict_eq_str (get_opt err "name") Error_name || loose); reflexivity.
  - destruct (loose_eq_str (get_opt err "name") TypeError_name) as [loose|e];
      [|reflexivity].
    unfold first_tested, case_tested, case_holds; simpl.
    destruct (String.eqb (typeof err) "string"); [reflexivity|].
    rewrite orb_false_r.
    destruct (strict_eq_str (get_opt err "name") Error_name || loose); reflexivity.
Qed.

(** For a name that is no object the loose comparison is the strict one
    and the lookup of the type is that of a string key. *)
Lemma loose_eq_str_plain (v : JsVal) (lit : string) :
  is_object v = false -> loose_eq_str v lit = Ok (strict_eq_str v lit).
Proof. destruct v; simpl; intros H; try discriminate H; reflexivity. Qed.

Lemma type_literal_plain (v : JsVal) :
  is_object v = false ->
  type_literal v =
  Ok (match v with
      | VStr k => member [("Error", VStr ApiException_name)] k
      | _ => VUndefined
      end).
Proof. destruct v; simpl; intros H; try discriminate H; reflexivity. Qed.

Lemma tests_plain (err : JsVal) (a : option JsVal) :
  accessor err = Ok a ->
  is_object (get_opt err "name") = false ->
  tests err = Ok (a, strict_eq_str (get_opt err "name") "TypeError").
Proof.
  intros Ha Hname. unfold tests. rewrite Ha.
  rewrite (loose_eq_str_plain _ _ Hname). reflexivity.
Qed.

Lemma first_tested_plain (err : JsVal) (a : option JsVal) :
  first_tested err a (strict_eq_str (get_opt err "name") "TypeError") =
  first_match err a.
Proof. reflexivity. Qed.

Lemma getTraceId_string (s : string) (st : State) :
  getTraceId uuid (VStr s) st = (Ok (VStr (uuid (draws (world st)))), next_draw st).
Proof. reflexivity. Qed.

Lemma getTraceId_other (err : JsVal) (st : State) (p : Pino) :
  pino (this st) = Some p ->
  nullish err = false ->
  typeof err <> "string" ->
  getTraceId uuid err st =
  (Ok (find_truthy [get_prop err "traceid"; get_opt (VObj (bindings p)) "tranceId"]), st).
Proof.
  intros Hp Hn Ht. unfold getTraceId.
  destruct (String.eqb (typeof err) "string") eqn:E.
  - apply String.eqb_eq in E. contradiction.
  - unfold bind, lift, get, pino_logger, ret. rewrite Hn, Hp. reflexivity.
Qed.

(** The [error] operation on a string. *)
Lemma error_string_run (s : string) (m c : option string) (st : State) (p : Pino) :
  pino (this st) = Some p ->
  error ISE Api uuid (VStr s) m c st =
  (Ok tt,
   push_call (error_record (VStr s) m c st (ISE (VStr s)) VUndefined
                (VStr (uuid (draws (world st)))))
     (next_draw st)).
Proof.
  intros Hp. unfold error, bind.
  rewrite getErrorResponse_run.
  cbn -[Luxon.toFormat Luxon.fromJSDate_setZone assign].
  unfold pino_logger. rewrite Hp. reflexivity.
Qed.

(** The [error] operation on any other value that is neither [undefined]
    nor [null]. *)
Lemma error_value_run (err : JsVal) (m c : option string) (st : State) (p : Pino) :
  pino (this st) = Some p ->
  nullish err = false ->
  typeof err <> "string" ->
  error ISE Api uuid err m c st =
  match response_of ISE Api err with
  | Thrown e => (Thrown e, st)
  | Ok response =>
      match type_literal (get_opt err "name") with
      | Thrown e => (Thrown e, st)
      | Ok ty =>
          (Ok tt,
           push_call (error_record err m c st response ty
                        (find_truthy [get_prop err "traceid";
                                      get_opt (VObj (bindings p)) "tranceId"]))
             st)
      end
  end.
Proof.
  intros Hp Hn Ht. unfold error, bind, response_of.
  rewrite getErrorResponse_run.
  destruct (tests err) as [[a loose]|e]; [|reflexivity].
  pose proof (getTraceId_other err st p Hp Hn Ht) as Htrace.
  destruct (strict_eq_str (get_opt err "name") ApiException_name).
  - assert (Hmsg : get_opt err "message" = get_prop err "message")
      by (unfold get_opt; now rewrite Hn).
    rewrite Hmsg. unfold lift, get, ret. rewrite Hn.
    destruct (type_literal (get_opt err "name")) as [ty|e]; [|reflexivity].
    unfold pino_logger. rewrite Hp. unfold gets. rewrite Htrace. reflexivity.
  - destruct (first_tested err a loose) as [k|];
      cbn -[Luxon.toFormat Luxon.fromJSDate_setZone assign case_value type_literal].
    + rewrite case_value_run.
      destruct (case_result ISE Api k err) as [response|e]; [|reflexivity].
      unfold lift.
      destruct (type_literal (get_opt err "name")) as [ty|e]; [|reflexivity].
      unfold pino_logger. rewrite Hp. unfold gets. rewrite Htrace.
      unfold get. rewrite Hn. reflexivity.
    + unfold lift.
      destruct (type_literal (get_opt err "name")) as [ty|e]; [|reflexivity].
      unfold pino_logger. rewrite Hp. unfold gets. rewrite Htrace.
      unfold get. rewrite Hn. reflexivity.
Qed.

(** The [error] operation on [undefined] and [null]. *)
Lemma error_nullish_run (err : JsVal) (m c : option string) (st : State) (p : Pino) :
  pino (this st) = Some p ->
  nullish err = true ->
  exists what, error ISE Api uuid err m c st = (Thrown (TypeErrorExn what), st).
Proof.
  intros Hp Hn. destruct err; try discriminate;
    (eexists; unfold error, bind; rewrite getErrorResponse_run; simpl;
     unfold pino_logger; rewrite Hp; reflexivity).
Qed.

End Runs.

(** *** The normalization order *)





(** When the conversion of the name throws, so do [getErrorResponse] and
    the [error] operation, which hands nothing to pino. *)
Lemma getErrorResponse_rethrows_the_conversion :
  Reference.getErrorResponse Reference.unconvertible_name_error Reference.ready =
  (Thrown (UserExn (VStr "x")), Reference.ready) /\
  Reference.error Reference.unconvertible_name_error None None Reference.ready =
  (Thrown (UserExn (VStr "x")), Reference.ready).
Proof. split; reflexivity. Qed.

(** *** The access log *)

(** C7.  The level of the access log: [error] when the status is at least
    400 or an error is attached, otherwise [silent] for a status from 300
    to 399, otherwise [info]. *)
Theorem customLogLevel_classification :
  forall (res : Response) (err : JsVal),
    customLogLevel res err =
      (if (400 <=? statusCode res) || truthy err then LError
       else if (300 <=? statusCode res) && (statusCode res <? 400) then LSilent
       else LInfo)
    /\ label LError = "error" /\ label LSilent = "silent" /\ label LInfo = "info".
Proof.
  intros res err. split; [|repeat split].
  unfold customLogLevel. simpl.
  destruct (400 <=? statusCode res) eqn:H400; simpl; [reflexivity|].
  destruct (truthy err); simpl; [reflexivity|].
  rewrite !andb_true_r.
  apply Z.leb_gt in H400.
  destruct (300 <=? statusCode res) eqn:H300; simpl; [|reflexivity].
  assert (Hle : (statusCode res <=? 400) = true) by (apply Z.leb_le; lia).
  assert (Hlt : (statusCode res <? 400) = true) by (apply Z.ltb_lt; lia).
  now rewrite Hle, Hlt.
Qed.

(** *** The health endpoint *)

(** C9.  When the health service is rejected with [new ApiException('Error')],
    [GET /health] answers with status 500 and the JSON body
    [{statusCode: 500, message: 'Error'}]. *)
Theorem health_failure_response :
  Health.getHealth (inl (Health.new_ApiException "Error" None)) =
  {| Health.status := 500;
     Health.body := Health.JsonBody [("statusCode", VNum 500);
                                     ("message", VStr "Error")] |}.
Proof. reflexivity. Qed.

(** *** The index name *)

Example civil_from_days_epoch : Luxon.civil_from_days 0 = (1970, 1, 1).
Proof. reflexivity. Qed.

Example civil_from_days_leap_day :
  Luxon.civil_from_days (Luxon.days_from_civil 2024 2 29) = (2024, 2, 29).
Proof. reflexivity. Qed.

Example toFormat_default :
  Luxon.toFormat (Luxon.fromJSDate_setZone 1715731200000 (fun _ => -180))
    defaultFormat = "14/05/2024 21:00:00".
Proof. reflexivity. Qed.

Lemma local_day_in_range (w : World) (d : Z) :
  d * Luxon.msPerDay <= clock w + zone w (clock w) * 60000 < (d + 1) * Luxon.msPerDay ->
  Luxon.local_day (clock w) (zone w) = d.
Proof.
  unfold Luxon.local_day, Luxon.msPerDay. intros H.
  symmetry. apply Z.div_unique with (r := clock w + zone w (clock w) * 60000 - d * 86400000); lia.
Qed.

Lemma append_empty_r (s : string) : s ++ "" = s.
Proof. induction s as [|ch rest IH]; simpl; [reflexivity|now rewrite IH]. Qed.

Lemma constructor_index (url : string) (w : World) :
  index (streamToElastic (constructor url w)) =
  "monorepo-logs-" ++
  Luxon.padStart (fst (fst (local_date w))) 4 ++ "-" ++
  Luxon.padStart (snd (fst (local_date w))) 2.
Proof.
  unfold constructor, local_date, Luxon.fromJSDate_setZone, Luxon.local_day. simpl.
  destruct (Luxon.civil_from_days
              ((clock w + zone w (clock w) * 60000) / Luxon.msPerDay)) as [[y m] d].
  simpl. now rewrite append_empty_r.
Qed.

(** C8.  The index name computed by the constructor depends on the calendar
    date in the configured zone only: two services built on the same date
    get the same name, whatever the time of day, the zone and the URL; and
    on 2024-05-15 the name is [monorepo-logs-2024-05]. *)
Theorem index_name_of_date :
  forall (url1 url2 : string) (w1 w2 : World),
    local_date w1 = local_date w2 ->
    index (streamToElastic (constructor url1 w1)) =
    index (streamToElastic (constructor url2 w2))
    /\ (forall (url : string) (w : World),
          Luxon.days_from_civil 2024 5 15 * Luxon.msPerDay
            <= clock w + zone w (clock w) * 60000
            < Luxon.days_from_civil 2024 5 16 * Luxon.msPerDay ->
          local_date w = (2024, 5, 15) /\
          index (streamToElastic (constructor url w)) = "monorepo-logs-2024-05").
Proof.
  intros url1 url2 w1 w2 Hsame. split.
  - rewrite !constructor_index. now rewrite Hsame.
  - intros url w Hday.
    assert (Hd : local_date w = (2024, 5, 15)).
    { unfold local_date. rewrite (local_day_in_range w 19858); [reflexivity|].
      exact Hday. }
    split; [exact Hd|].
    rewrite constructor_index, Hd. reflexivity.
Qed.

(** Witness: noon in UTC and half past eleven in the evening three hours
    west of UTC fall on 2024-05-15 alike. *)
Lemma index_name_of_date_witness :
  index (streamToElastic (constructor "http://elk:9200" Reference.noon)) =
  index (streamToElastic
           (constructor "http://other:9200"
              {| clock := 1715826600000; zone := fun _ => -180;
                 draws := 7%nat; out := [] |}))
  /\ index (streamToElastic (constructor "http://elk:9200" Reference.noon)) =
     "monorepo-logs-2024-05".
Proof.
  destruct (index_name_of_date "http://elk:9200" "http://other:9200" Reference.noon
              {| clock := 1715826600000; zone := fun _ => -180;
                 draws := 7%nat; out := [] |})
    as [Hsame Hday].
  - vm_compute. reflexivity.
  - split; [exact Hsame|].
    apply (Hday "http://elk:9200" Reference.noon).
    vm_compute. split; [discriminate|reflexivity].
Defined.

(** *** The reference collaborators meet the contracts assumed below *)

Lemma Reference_ise_status (s : string) :
  assoc "statusCode"
    (spread (Reference.InternalServerErrorException_getResponse (VStr s))) =
  Some (VNum 500).
Proof.
  unfold Reference.InternalServerErrorException_getResponse, Reference.createBody.
  simpl. destruct (String.eqb s ""); reflexivity.
Qed.

Lemma Reference_ise_message (s : string) :
  s <> "" ->
  assoc "message"
    (spread (Reference.InternalServerErrorException_getResponse (VStr s))) =
  Some (VStr s).
Proof.
  intros Hs.
  unfold Reference.InternalServerErrorException_getResponse, Reference.createBody.
  simpl. apply String.eqb_neq in Hs. rewrite Hs. reflexivity.
Qed.

Lemma Reference_ise_has_message (s : string) :
  exists text,
    assoc "message"
      (spread (Reference.InternalServerErrorException_getResponse (VStr s))) =
    Some text.
Proof.
  unfold Reference.InternalServerErrorException_getResponse, Reference.createBody.
  simpl. destruct (String.eqb s ""); eexists; reflexivity.
Qed.

Lemma Reference_uuid_nonempty (n : nat) : Reference.uuid_source n <> "".
Proof. unfold Reference.uuid_source. simpl. discriminate. Qed.

Lemma Reference_uuid_injective (i j : nat) :
  Reference.uuid_source i = Reference.uuid_source j -> i = j.
Proof.
  unfold Reference.uuid_source. simpl. intros H.
  injection H as H.
  apply DecimalNat.Unsigned.to_uint_inj.
  assert (Hi := NilEmpty.usu (Nat.to_uint i)).
  assert (Hj := NilEmpty.usu (Nat.to_uint j)).
  rewrite H in Hi. congruence.
Qed.

(** *** The error operation *)

Section ErrorOperation.

Variable ISE : JsVal -> JsVal.
Variable Api : JsVal -> JsVal -> JsVal -> JsVal.
Variable uuid : nat -> string.

Lemma named_value (err : JsVal) (n : string) :
  get_opt err "name" = VStr n -> nullish err = false /\ typeof err <> "string".
Proof. destruct err; simpl; intros H; try discriminate; split; auto; discriminate. Qed.

Lemma accessor_absent (err : JsVal) :
  typeof (get_opt err "getResponse") <> "function" -> accessor err = Ok None.
Proof.
  intros H. unfold accessor.
  destruct (String.eqb (typeof (get_opt err "getResponse")) "function") eqn:E;
    [|reflexivity].
  apply String.eqb_eq in E. contradiction.
Qed.

Lemma get_opt_get_prop (err : JsVal) (k : string) :
  nullish err = false -> get_opt err k = get_prop err k.
Proof. intros H. unfold get_opt. now rewrite H. Qed.

(** The body of a string. *)
Lemma response_of_string (s : string) :
  response_of ISE Api (VStr s) = Ok (ISE (VStr s)).
Proof. reflexivity. Qed.

(** For a name that is no object the body is decided by the cases as the
    specification words them. *)
Lemma response_of_plain (err : JsVal) :
  is_object (get_opt err "name") = false ->
  response_of ISE Api err =
  match accessor err with
  | Thrown e => Thrown e
  | Ok a =>
      if strict_eq_str (get_opt err "name") ApiException_name
      then Ok (VObj [("statusCode", get_prop err "statusCode");
                     ("message", get_prop err "message")])
      else match first_match err a with
           | Some c => case_result ISE Api c err
           | None => Ok VUndefined
           end
  end.
Proof.
  intros Hname. unfold response_of, tests.
  rewrite (loose_eq_str_plain _ _ Hname).
  destruct (accessor err); reflexivity.
Qed.

Lemma string_name_plain (err : JsVal) (n : string) :
  get_opt err "name" = VStr n -> is_object (get_opt err "name") = false.
Proof. intros ->. reflexivity. Qed.

(** The body of a value named [Error] or [TypeError] that exposes no
    response accessor. *)
Lemma response_of_named_error (err : JsVal) :
  get_opt err "name" = VStr "Error" \/ get_opt err "name" = VStr "TypeError" ->
  typeof (get_opt err "getResponse") <> "function" ->
  response_of ISE Api err = Ok (ISE (get_prop err "message")).
Proof.
  intros Hname Hacc.
  assert (Hn : nullish err = false /\ typeof err <> "string")
    by (destruct Hname as [H|H]; exact (named_value err _ H)).
  destruct Hn as [Hn Ht].
  rewrite response_of_plain
    by (destruct Hname as [H|H]; exact (string_name_plain err _ H)).
  rewrite (accessor_absent err Hacc).
  unfold first_match, case_holds.
  apply String.eqb_neq in Ht. rewrite Ht.
  destruct Hname as [H|H]; rewrite H; simpl; unfold get; rewrite Hn; reflexivity.
Qed.

(** One statement for every value but [undefined] and [null]: on a
    connected logger the operation throws what computing the body or
    looking up the type throws, and otherwise hands exactly one record to
    pino. *)
Lemma error_run (err : JsVal) (m c : option string) (st : State) (p : Pino) :
  pino (this st) = Some p ->
  nullish err = false ->
  error ISE Api uuid err m c st =
  match response_of ISE Api err with
  | Thrown e => (Thrown e, st)
  | Ok response =>
      match type_literal (get_opt err "name") with
      | Thrown e => (Thrown e, st)
      | Ok ty =>
          (Ok tt,
           push_call (error_record err m c st response ty
                        (resolved_traceid uuid err st))
             (after_traceid err st))
      end
  end.
Proof.
  intros Hp Hn.
  unfold resolved_traceid, after_traceid.
  destruct (String.eqb (typeof err) "string") eqn:E.
  - destruct err; try discriminate E.
    rewrite response_of_string. now apply error_string_run with (p := p).
  - apply String.eqb_neq in E. rewrite Hp.
    now apply error_value_run.
Qed.

(** The same for a value whose name is a string. *)
Lemma error_run_named (err : JsVal) (n : string) (m c : option string)
    (st : State) (p : Pino) :
  pino (this st) = Some p ->
  get_opt err "name" = VStr n ->
  error ISE Api uuid err m c st =
  match response_of ISE Api err with
  | Thrown e => (Thrown e, st)
  | Ok response =>
      (Ok tt,
       push_call (error_record err m c st response
                    (member [("Error", VStr ApiException_name)] n)
                    (resolved_traceid uuid err st))
         st)
  end.
Proof.
  intros Hp Hname.
  destruct (named_value err _ Hname) as [Hn Ht].
  rewrite (error_run err m c st p Hp Hn), Hname.
  unfold after_traceid. apply String.eqb_neq in Ht. rewrite Ht.
  reflexivity.
Qed.

End ErrorOperation.

(** C10.  For a value whose name is exactly [Error], every record the
    [error] operation emits has the type tag [ApiException]; and the
    operation does emit one whenever the value exposes no response
    accessor, or exposes one that returns an object. *)
Theorem error_type_tag_of_Error :
  forall (ISE : JsVal -> JsVal) (Api : JsVal -> JsVal -> JsVal -> JsVal)
         (uuid : nat -> string)
         (err : JsVal) (m c : option string) (st : State) (p : Pino),
    pino (this st) = Some p ->
    get_opt err "name" = VStr "Error" ->
    (forall st',
        error ISE Api uuid err m c st = (Ok tt, st') ->
        exists r,
          out (world st') = (out (world st) ++ [r])%list /\
          level r = LError /\
          assoc "type" (obj r) = Some (VStr "ApiException"))
    /\ (typeof (get_opt err "getResponse") <> "function" ->
        exists st', error ISE Api uuid err m c st = (Ok tt, st'))
    /\ (forall r, accessor err = Ok (Some r) -> typeof r = "object" ->
        exists st', error ISE Api uuid err m c st = (Ok tt, st')).
Proof.
  intros ISE Api uuid err m c st p Hp Hname.
  destruct (named_value err _ Hname) as [Hn Ht].
  rewrite (error_run_named ISE Api uuid err _ m c st p Hp Hname).
  split; [|split].
  - intros st' Hrun.
    destruct (response_of ISE Api err) as [body|e]; [|discriminate Hrun].
    injection Hrun as <-.
    eexists. split; [reflexivity|]. split; [reflexivity|].
    rewrite error_record_type. reflexivity.
  - intros Hacc.
    rewrite (response_of_named_error ISE Api err (or_introl Hname) Hacc).
    eexists. reflexivity.
  - intros r Hacc Hobj.
    rewrite response_of_plain by exact (string_name_plain err _ Hname).
    rewrite Hacc, Hname. simpl.
    unfold first_match, case_holds.
    apply String.eqb_neq in Ht. rewrite Ht.
    assert (Hstr : String.eqb (typeof r) "string" = false)
      by (rewrite Hobj; reflexivity).
    rewrite Hstr, Hobj. simpl. rewrite Hn.
    unfold accessor in Hacc.
    destruct (String.eqb (typeof (get_opt err "getResponse")) "function");
      [|discriminate Hacc].
    destruct (call_method err "getResponse") as [r'|e]; [|discriminate Hacc].
    eexists. reflexivity.
Qed.

(** Witness: a plain [Error] logged on the reference service. *)
Lemma error_type_tag_of_Error_witness :
  exists r,
    out (world (snd (Reference.error
                       Reference.plain_error
                       (Some "failed") None Reference.ready))) = [r] /\
    assoc "type" (obj r) = Some (VStr "ApiException").
Proof.
  destruct (error_type_tag_of_Error
              Reference.InternalServerErrorException_getResponse
              Reference.ApiException_getResponse Reference.uuid_source
              Reference.plain_error
              (Some "failed") None Reference.ready
              {| pino_level := LTrace; bindings := [] |}
              eq_refl eq_refl) as [Htag _].
  destruct (Htag _ eq_refl) as [r [Hout [_ Htype]]].
  exists r. split; [exact Hout | exact Htype].
Defined.

(** C6, as amended.  For a value whose name is exactly [Error] or
    [TypeError], which exposes no response accessor and whose message is a
    string, the normalization picks the fourth case, whose body is the
    framework's internal-server-error body of that message; the record the
    [error] operation emits has statusCode 500, and the original message
    when that is not empty.  The framework's contract is assumed: the body
    built from a string has statusCode 500, and has that string as its
    message when the string is not empty. *)
Theorem error_named_Error_is_500 :
  forall (ISE : JsVal -> JsVal) (Api : JsVal -> JsVal -> JsVal -> JsVal)
         (uuid : nat -> string)
         (err : JsVal) (m c : option string) (st : State) (p : Pino)
         (text : string),
    pino (this st) = Some p ->
    get_opt err "name" = VStr "Error" \/ get_opt err "name" = VStr "TypeError" ->
    typeof (get_opt err "getResponse") <> "function" ->
    get_prop err "message" = VStr text ->
    (forall s, assoc "statusCode" (spread (ISE (VStr s))) = Some (VNum 500)) ->
    (forall s, s <> "" -> assoc "message" (spread (ISE (VStr s))) = Some (VStr s)) ->
    getErrorResponse ISE Api err st =
      (Ok (Some (case_entry ISE Api CaseNamedError err)), st)
    /\ value (case_entry ISE Api CaseNamedError err) st = (Ok (ISE (VStr text)), st)
    /\ exists r,
         error ISE Api uuid err m c st = (Ok tt, push_call r st) /\
         level r = LError /\
         assoc "statusCode" (obj r) = Some (VNum 500) /\
         (text <> "" -> assoc "message" (obj r) = Some (VStr text)).
Proof.
  intros ISE Api uuid err m c st p text Hp Hname Hacc Hmsg Hstatus Hmessage.
  assert (Hn : nullish err = false /\ typeof err <> "string")
    by (destruct Hname as [H|H]; exact (named_value err _ H)).
  destruct Hn as [Hn Ht].
  assert (Hne : String.eqb (typeof err) "string" = false)
    by now apply String.eqb_neq.
  split; [|split].
  - rewrite getErrorResponse_run.
    rewrite (tests_plain err None (accessor_absent err Hacc))
      by (destruct Hname as [H|H]; exact (string_name_plain err _ H)).
    rewrite first_tested_plain.
    unfold first_match, case_holds. rewrite Hne.
    destruct Hname as [H|H]; rewrite H; reflexivity.
  - simpl. unfold value_named_error, bind, lift, get, ret.
    now rewrite Hn, Hmsg.
  - assert (Hrun : exists n, get_opt err "name" = VStr n)
      by (destruct Hname as [H|H]; eexists; exact H).
    destruct Hrun as [n Hn'].
    rewrite (error_run_named ISE Api uuid err n m c st p Hp Hn').
    rewrite (response_of_named_error ISE Api err Hname Hacc), Hmsg.
    eexists. split; [reflexivity|]. split; [reflexivity|]. split.
    + rewrite error_record_keeps by exact statusCode_not_written. apply Hstatus.
    + intros Htext.
      rewrite error_record_keeps by exact message_not_written.
      now apply Hmessage.
Qed.

(** Witness: a plain [Error] with the message [boom] on the reference
    service. *)
Lemma error_named_Error_is_500_witness :
  exists r,
    Reference.error
      Reference.plain_error
      (Some "failed") None Reference.ready
    = (Ok tt, push_call r Reference.ready) /\
    assoc "statusCode" (obj r) = Some (VNum 500) /\
    assoc "message" (obj r) = Some (VStr "boom").
Proof.
  destruct (error_named_Error_is_500
              Reference.InternalServerErrorException_getResponse
              Reference.ApiException_getResponse Reference.uuid_source
              Reference.plain_error
              (Some "failed") None Reference.ready
              {| pino_level := LTrace; bindings := [] |} "boom"
              eq_refl (or_introl eq_refl))
    as [_ [_ [r [Hrun [_ [Hstatus Hmessage]]]]]].
  - simpl. discriminate.
  - reflexivity.
  - exact Reference_ise_status.
  - exact Reference_ise_message.
  - exists r. split; [exact Hrun|]. split; [exact Hstatus|].
    apply Hmessage. discriminate.
Defined.

(** Counterexample to C6 as stated: a value named [Error] that exposes a
    response accessor returning an object is logged with the statusCode
    and message of that object, here 404 and [nf], and not with 500 and
    its own message [x]. *)
Lemma error_named_Error_with_accessor :
  get_opt Reference.named_error_with_accessor "name" = VStr "Error" /\
  fst (Reference.error Reference.named_error_with_accessor None None Reference.ready)
  = Ok tt /\
  exists r,
    out (world (snd (Reference.error Reference.named_error_with_accessor
                       None None Reference.ready))) = [r] /\
    assoc "statusCode" (obj r) = Some (VNum 404) /\
    assoc "message" (obj r) = Some (VStr "nf").
Proof.
  vm_compute. split; [reflexivity|]. split; [reflexivity|].
  eexists. split; [reflexivity|]. split; reflexivity.
Qed.

(** *** Strings *)

(** C5.  For every string the normalization picks the first case, whose
    body has statusCode 500, and the record the [error] operation emits
    carries that statusCode and, as its trace id, the identifier drawn for
    this call.  Two calls in a row draw two identifiers, both non-empty and
    different from each other.  Assumed of the collaborators: the
    framework's body for a string has statusCode 500, and the generator
    never produces the empty string nor the same identifier twice. *)
Theorem error_string_is_500_with_fresh_traceid :
  forall (ISE : JsVal -> JsVal) (Api : JsVal -> JsVal -> JsVal -> JsVal)
         (uuid : nat -> string)
         (s1 s2 : string) (m1 c1 m2 c2 : option string) (st : State) (p : Pino),
    pino (this st) = Some p ->
    (forall s, assoc "statusCode" (spread (ISE (VStr s))) = Some (VNum 500)) ->
    (forall n, uuid n <> "") ->
    (forall i j, uuid i = uuid j -> i = j) ->
    getErrorResponse ISE Api (VStr s1) st =
      (Ok (Some (case_entry ISE Api CaseString (VStr s1))), st)
    /\ value (case_entry ISE Api CaseString (VStr s1)) st = (Ok (ISE (VStr s1)), st)
    /\ exists r1 r2 st' t1 t2,
         (error ISE Api uuid (VStr s1) m1 c1 ;;;
          error ISE Api uuid (VStr s2) m2 c2) st = (Ok tt, st') /\
         out (world st') = (out (world st) ++ [r1; r2])%list /\
         assoc "statusCode" (obj r1) = Some (VNum 500) /\
         assoc "statusCode" (obj r2) = Some (VNum 500) /\
         assoc "traceid" (obj r1) = Some (VStr t1) /\
         assoc "traceid" (obj r2) = Some (VStr t2) /\
         t1 = uuid (draws (world st)) /\
         t2 = uuid (S (draws (world st))) /\
         t1 <> "" /\ t2 <> "" /\ t1 <> t2.
Proof.
  intros ISE Api uuid s1 s2 m1 c1 m2 c2 st p Hp Hstatus Hnonempty Hinj.
  split; [|split].
  - rewrite getErrorResponse_run. reflexivity.
  - reflexivity.
  - unfold bind.
    rewrite (error_string_run ISE Api uuid s1 m1 c1 st p Hp).
    rewrite (error_string_run ISE Api uuid s2 m2 c2 _ p) by exact Hp.
    do 5 eexists.
    split; [reflexivity|].
    split; [simpl; rewrite <- app_assoc; reflexivity|].
    split; [rewrite error_record_keeps by exact statusCode_not_written;
            apply Hstatus|].
    split; [rewrite error_record_keeps by exact statusCode_not_written;
            apply Hstatus|].
    split; [apply error_record_traceid|].
    split; [apply error_record_traceid|].
    split; [reflexivity|].
    split; [reflexivity|].
    split; [apply Hnonempty|].
    split; [apply Hnonempty|].
    intros Heq. apply Hinj in Heq. lia.
Qed.

(** Witness: two strings logged in a row on the reference service. *)
Lemma error_string_is_500_with_fresh_traceid_witness :
  exists r1 r2,
    out (world (snd ((Reference.error (VStr "first") None None ;;;
                      Reference.error (VStr "second") None None)
                       Reference.ready))) = [r1; r2] /\
    assoc "statusCode" (obj r1) = Some (VNum 500) /\
    assoc "traceid" (obj r1) = Some (VStr "id-0") /\
    assoc "traceid" (obj r2) = Some (VStr "id-1").
Proof.
  destruct (error_string_is_500_with_fresh_traceid
              Reference.InternalServerErrorException_getResponse
              Reference.ApiException_getResponse Reference.uuid_source
              "first" "second" None None None None Reference.ready
              {| pino_level := LTrace; bindings := [] |}
              eq_refl Reference_ise_status Reference_uuid_nonempty
              Reference_uuid_injective)
    as [_ [_ [r1 [r2 [st' [t1 [t2 [Hrun [Hout [H1 [_ [Ht1 [Ht2 [E1 [E2 _]]]]]]]]]]]]]]].
  exists r1, r2.
  unfold Reference.error. rewrite Hrun. simpl.
  split; [exact Hout|]. split; [exact H1|].
  split; [rewrite Ht1, E1; reflexivity | rewrite Ht2, E2; reflexivity].
Defined.

(** *** One record per logged error *)

Lemma strict_eq_str_true (v : JsVal) (s : string) :
  strict_eq_str v s = true <-> v = VStr s.
Proof.
  destruct v; simpl; split; intros H; try discriminate.
  - apply String.eqb_eq in H. now subst.
  - injection H as ->. apply String.eqb_refl.
Qed.

Lemma response_of_without_accessor
    (ISE : JsVal -> JsVal) (Api : JsVal -> JsVal -> JsVal -> JsVal) (err : JsVal) :
  nullish err = false ->
  is_object (get_opt err "name") = false ->
  typeof (get_opt err "getResponse") <> "function" ->
  exists body, response_of ISE Api err = Ok body.
Proof.
  intros Hn Hname Hacc.
  rewrite (response_of_plain ISE Api err Hname), (accessor_absent err Hacc).
  destruct (strict_eq_str (get_opt err "name") ApiException_name);
    [eexists; reflexivity|].
  unfold first_match, case_holds.
  destruct (String.eqb (typeof err) "string"); simpl; [eexists; reflexivity|].
  destruct (strict_eq_str (get_opt err "name") "Error"
            || strict_eq_str (get_opt err "name") "TypeError"); simpl.
  - unfold get. rewrite Hn. eexists; reflexivity.
  - eexists; reflexivity.
Qed.

Lemma string_typed (v : JsVal) : typeof v = "string" -> exists s, v = VStr s.
Proof. destruct v; simpl; intros H; try discriminate. now eexists. Qed.

Lemma member_Error_other (n : string) :
  n <> "Error" -> ~ In n Object_prototype_names ->
  member [("Error", VStr ApiException_name)] n = VUndefined.
Proof.
  intros Hne Hnot. unfold member.
  change (assoc n [("Error", VStr ApiException_name)])
    with (if String.eqb "Error" n then Some (VStr ApiException_name) else None).
  destruct (String.eqb "Error" n) eqn:E.
  - apply String.eqb_eq in E. congruence.
  - destruct (existsb (String.eqb n) Object_prototype_names) eqn:Ex; [|reflexivity].
    apply existsb_exists in Ex. destruct Ex as [x [Hin Hx]].
    apply String.eqb_eq in Hx. subst x. contradiction.
Qed.

Lemma member_Error_inherited (n : string) :
  In n Object_prototype_names ->
  member [("Error", VStr ApiException_name)] n = inherited_member n /\
  truthy (inherited_member n) = true.
Proof.
  intros Hin. simpl in Hin.
  repeat (destruct Hin as [<-|Hin]; [split; reflexivity|]). contradiction.
Qed.

(** C1, as amended.  On a connected logger, for every value other than
    [undefined] and [null], a run of the [error] operation that completes
    emits exactly one record, at level [error]: the fields of the
    normalized body, under the keys the operation writes itself, among
    them the stack of the value and the type tag.  For a name that is no
    object the tag is [ApiException] when the name is [Error], the member
    of [Object.prototype] of that name when the name is the name of one,
    and otherwise the name itself when it is truthy and [undefined] when
    it is not.  The record has statusCode 500 and a message for a string
    and for a value named [Error] or [TypeError] with a string message and
    no response accessor; it has the value's own statusCode and message
    for a value named [ApiException]; it has neither a statusCode nor a
    message for a value whose name is no object and that matches no case.
    The run completes whenever the value exposes no response accessor and
    its name is no object. *)
Theorem error_emits_one_record :
  forall (ISE : JsVal -> JsVal) (Api : JsVal -> JsVal -> JsVal -> JsVal)
         (uuid : nat -> string)
         (err : JsVal) (m c : option string) (st : State) (p : Pino),
    pino (this st) = Some p ->
    nullish err = false ->
    (forall s, assoc "statusCode" (spread (ISE (VStr s))) = Some (VNum 500)) ->
    (forall s, exists text, assoc "message" (spread (ISE (VStr s))) = Some text) ->
    (typeof (get_opt err "getResponse") <> "function" ->
     is_object (get_opt err "name") = false ->
     exists st', error ISE Api uuid err m c st = (Ok tt, st'))
    /\ forall st',
        error ISE Api uuid err m c st = (Ok tt, st') ->
        exists r body,
          response_of ISE Api err = Ok body /\
          out (world st') = (out (world st) ++ [r])%list /\
          level r = LError /\
          (forall k, ~ In k written_keys -> assoc k (obj r) = assoc k (spread body)) /\
          assoc "stack" (obj r) = Some (get_prop err "stack") /\
          (get_opt err "name" = VStr "Error" ->
           assoc "type" (obj r) = Some (VStr "ApiException")) /\
          (forall n, get_opt err "name" = VStr n ->
                     In n Object_prototype_names ->
                     assoc "type" (obj r) = Some (inherited_member n)) /\
          (forall n, get_opt err "name" = VStr n ->
                     n <> "Error" -> ~ In n Object_prototype_names -> n <> "" ->
                     assoc "type" (obj r) = Some (VStr n)) /\
          (is_object (get_opt err "name") = false ->
           typeof (get_opt err "name") <> "string" ->
           truthy (get_opt err "name") = true ->
           assoc "type" (obj r) = Some (get_opt err "name")) /\
          (truthy (get_opt err "name") = false ->
           assoc "type" (obj r) = Some VUndefined) /\
          (typeof err = "string" \/
           ((get_opt err "name" = VStr "Error" \/ get_opt err "name" = VStr "TypeError")
            /\ typeof (get_opt err "getResponse") <> "function"
            /\ typeof (get_prop err "message") = "string") ->
           assoc "statusCode" (obj r) = Some (VNum 500) /\
           exists text, assoc "message" (obj r) = Some text) /\
          (get_opt err "name" = VStr ApiException_name ->
           assoc "statusCode" (obj r) = Some (get_prop err "statusCode") /\
           assoc "message" (obj r) = Some (get_prop err "message")) /\
          (get_opt err "name" <> VStr ApiException_name ->
           is_object (get_opt err "name") = false ->
           (forall a, accessor err = Ok a -> first_match err a = None) ->
           assoc "statusCode" (obj r) = None /\ assoc "message" (obj r) = None).
Proof.
  intros ISE Api uuid err m c st p Hp Hn Hstatus Hmessage.
  rewrite (error_run ISE Api uuid err m c st p Hp Hn).
  split.
  - intros Hacc Hplain.
    destruct (response_of_without_accessor ISE Api err Hn Hplain Hacc)
      as [body Hbody].
    rewrite Hbody, (type_literal_plain _ Hplain). eexists; reflexivity.
  - intros st' Hrun.
    destruct (response_of ISE Api err) as [body|e] eqn:Hbody; [|discriminate Hrun].
    destruct (type_literal (get_opt err "name")) as [ty|e] eqn:Hty;
      [|discriminate Hrun].
    injection Hrun as <-.
    exists (error_record err m c st body ty (resolved_traceid uuid err st)), body.
    split; [reflexivity|].
    split; [unfold after_traceid; destruct (String.eqb (typeof err) "string");
            reflexivity|].
    split; [reflexivity|].
    split; [intros k Hk; now apply error_record_keeps|].
    split; [apply error_record_stack|].
    rewrite !error_record_type.
    rewrite !error_record_keeps
      by (exact statusCode_not_written || exact message_not_written).
    split; [|split; [|split; [|split; [|split; [|split; [|split]]]]]].
    + intros Hname. rewrite Hname in *. injection Hty as <-. reflexivity.
    + intros n Hname Hin. rewrite Hname in *.
      simpl in Hty. injection Hty as <-.
      destruct (member_Error_inherited n Hin) as [-> Htruthy].
      unfold find_truthy. simpl. rewrite Htruthy. reflexivity.
    + intros n Hname Hne Hnot Hnonempty. rewrite Hname in *.
      simpl in Hty. injection Hty as <-.
      rewrite (member_Error_other n Hne Hnot).
      unfold find_truthy. simpl.
      apply String.eqb_neq in Hnonempty. rewrite Hnonempty. reflexivity.
    + intros Hplain Hnotstr Htruthy.
      rewrite (type_literal_plain _ Hplain) in Hty. injection Hty as <-.
      destruct (get_opt err "name"); simpl in *;
        try discriminate; try congruence;
        unfold find_truthy; simpl; rewrite ?Htruthy; reflexivity.
    + intros Hfalsy.
      assert (Hplain : is_object (get_opt err "name") = false)
        by (destruct (get_opt err "name"); simpl in *; congruence).
      rewrite (type_literal_plain _ Hplain) in Hty. injection Hty as <-.
      destruct (get_opt err "name") as [| |b|n|n| |]; simpl in *;
        try discriminate; unfold find_truthy; simpl; rewrite ?Hfalsy;
        try reflexivity.
      destruct (String.eqb n "") eqn:E; [|discriminate Hfalsy].
      apply String.eqb_eq in E. subst n. reflexivity.
    + intros [Hstring | [Hname [Hacc Hmsg]]].
      * destruct (string_typed err Hstring) as [s ->].
        rewrite response_of_string in Hbody. injection Hbody as <-.
        split; [apply Hstatus | apply Hmessage].
      * rewrite (response_of_named_error ISE Api err Hname Hacc) in Hbody.
        destruct (string_typed _ Hmsg) as [s Hs]. rewrite Hs in Hbody.
        injection Hbody as <-.
        split; [apply Hstatus | apply Hmessage].
    + intros Hname.
      rewrite (response_of_plain ISE Api err (string_name_plain err _ Hname))
        in Hbody.
      destruct (accessor err) as [a|e]; [|discriminate Hbody].
      rewrite Hname in Hbody. unfold strict_eq_str in Hbody.
      rewrite String.eqb_refl in Hbody. injection Hbody as <-.
      split; reflexivity.
    + intros Hname Hplain Hnone.
      rewrite (response_of_plain ISE Api err Hplain) in Hbody.
      destruct (accessor err) as [a|e]; [|discriminate Hbody].
      destruct (strict_eq_str (get_opt err "name") ApiException_name) eqn:E.
      * apply strict_eq_str_true in E. contradiction.
      * rewrite (Hnone a eq_refl) in Hbody. injection Hbody as <-.
        split; reflexivity.
Qed.

(** Witness: a string logged on the reference service. *)
Lemma error_emits_one_record_witness :
  exists r,
    out (world (snd (Reference.error (VStr "boom") (Some "failed") None
                       Reference.ready))) = [r] /\
    level r = LError /\
    assoc "statusCode" (obj r) = Some (VNum 500) /\
    assoc "stack" (obj r) = Some VUndefined.
Proof.
  destruct (error_emits_one_record
              Reference.InternalServerErrorException_getResponse
              Reference.ApiException_getResponse Reference.uuid_source
              (VStr "boom") (Some "failed") None Reference.ready
              {| pino_level := LTrace; bindings := [] |}
              eq_refl eq_refl Reference_ise_status Reference_ise_has_message)
    as [_ Hone].
  destruct (Hone _ eq_refl)
    as [r [body [_ [Hout [Hlevel [_ [Hstack [_ [_ [_ [_ [_ [H500 _]]]]]]]]]]]]].
  exists r. split; [exact Hout|]. split; [exact Hlevel|].
  split; [apply H500; left; reflexivity | exact Hstack].
Defined.

(** Counterexample to C1 as stated: a [RangeError] matches no case of the
    normalization, and the record emitted for it has neither a statusCode
    nor a message. *)
Lemma error_unknown_shape_not_normalized :
  fst (Reference.error Reference.range_error (Some "failed") None Reference.ready)
  = Ok tt /\
  exists r,
    out (world (snd (Reference.error Reference.range_error (Some "failed") None
                       Reference.ready))) = [r] /\
    assoc "statusCode" (obj r) = None /\
    assoc "message" (obj r) = None /\
    assoc "type" (obj r) = Some (VStr "RangeError").
Proof.
  vm_compute. split; [reflexivity|].
  eexists. split; [reflexivity|]. repeat split.
Qed.

(** *** The fatal operation *)

(** C3, where the code departs from it.  On every value that exposes no
    response accessor, [undefined] and [null] included, the [fatal]
    operation throws a [TypeError] and hands nothing to pino. *)
Theorem fatal_throws_without_accessor :
  forall (uuid : nat -> string) (err : JsVal) (m c : option string) (st : State),
    typeof (get_opt err "getResponse") <> "function" ->
    exists what, fatal uuid err m c st = (Thrown (TypeErrorExn what), st).
Proof.
  intros uuid err m c st Hacc.
  unfold fatal, bind, pino_logger.
  destruct (pino (this st)) as [p|]; [|eexists; reflexivity].
  unfold lift, call_method, get.
  destruct (nullish err) eqn:Hn; [eexists; reflexivity|].
  rewrite (get_opt_get_prop err "getResponse" Hn) in Hacc.
  destruct (get_prop err "getResponse") eqn:Hget; simpl;
    try (eexists; reflexivity).
  exfalso. apply Hacc. reflexivity.
Qed.

(** Witness: [fatal] on a plain [Error]. *)
Lemma fatal_throws_without_accessor_witness :
  exists what,
    Reference.fatal Reference.plain_error (Some "failed") None Reference.ready =
    (Thrown (TypeErrorExn what), Reference.ready).
Proof.
  apply (fatal_throws_without_accessor Reference.uuid_source Reference.plain_error
           (Some "failed") None Reference.ready).
  simpl. discriminate.
Defined.

(** The [error] operation, for its part, completes on the values without
    a response accessor that are neither [undefined] nor [null] and whose
    name is no object. *)
Lemma error_completes_without_accessor
    (ISE : JsVal -> JsVal) (Api : JsVal -> JsVal -> JsVal -> JsVal)
    (uuid : nat -> string) (err : JsVal) (m c : option string)
    (st : State) (p : Pino) :
  pino (this st) = Some p ->
  nullish err = false ->
  is_object (get_opt err "name") = false ->
  typeof (get_opt err "getResponse") <> "function" ->
  exists st', error ISE Api uuid err m c st = (Ok tt, st').
Proof.
  intros Hp Hn Hplain Hacc.
  rewrite (error_run ISE Api uuid err m c st p Hp Hn).
  destruct (response_of_without_accessor ISE Api err Hn Hplain Hacc) as [body ->].
  rewrite (type_literal_plain _ Hplain).
  eexists; reflexivity.
Qed.

(** *** The trace id *)

(** C4, where the code departs from it.  After [customProps] bound the
    trace id [abc] of the request to the logger, [getTraceId] still gives
    [undefined] for an error without a trace id of its own: it reads the
    binding [tranceId], which nothing sets.  A string draws a fresh
    identifier, and a value with a trace id of its own keeps it. *)
Theorem getTraceId_misses_bound_traceid :
  (exists p,
      pino (this Reference.bound) = Some p /\
      assoc "traceid" (bindings p) = Some (VStr "abc") /\
      assoc "tranceId" (bindings p) = None)
  /\ Reference.getTraceId Reference.plain_error Reference.bound =
     (Ok VUndefined, Reference.bound)
  /\ Reference.getTraceId (VStr "boom") Reference.bound =
     (Ok (VStr "id-0"), next_draw Reference.bound)
  /\ Reference.getTraceId (VObj [("name", VStr "Error"); ("traceid", VStr "own")])
       Reference.bound =
     (Ok (VStr "own"), Reference.bound).
Proof.
  split; [eexists; repeat split|].
  split; [reflexivity|]. split; reflexivity.
Qed.

(* ===================================================================== *)
(** ** Further properties of the service *)
(* ===================================================================== *)

(** *** More on the records *)

Lemma error_record_context err m c st response ty traceid :
  assoc "context" (obj (error_record err m c st response ty traceid)) =
  Some (find_truthy [of_option c; app (this st)]).
Proof.
  unfold error_record, obj.
  rewrite assoc_assign_in by (simpl; tauto). reflexivity.
Qed.

Lemma error_record_application err m c st response ty traceid :
  assoc "application" (obj (error_record err m c st response ty traceid)) =
  Some (app (this st)).
Proof.
  unfold error_record, obj.
  rewrite assoc_assign_in by (simpl; tauto). reflexivity.
Qed.

Lemma find_truthy_context (c : option string) (application : JsVal) :
  find_truthy [of_option c; application] = Messages.context_of c application.
Proof.
  unfold Messages.context_of, find_truthy. destruct c as [text|]; simpl.
  - destruct (String.eqb text ""); reflexivity.
  - reflexivity.
Qed.

Lemma accessor_present (err r : JsVal) :
  accessor err = Ok (Some r) ->
  nullish err = false /\ typeof err <> "string" /\
  call_method err "getResponse" = Ok r.
Proof.
  unfold accessor. intros H.
  destruct (String.eqb (typeof (get_opt err "getResponse")) "function") eqn:E;
    [|discriminate H].
  destruct (call_method err "getResponse") as [r'|e] eqn:Hcall; [|discriminate H].
  injection H as ->.
  destruct err; simpl in E; try discriminate E; repeat split; discriminate.
Qed.

(** The [fatal] operation on a connected logger, for a value whose
    response accessor returns. *)
Lemma fatal_run (uuid : nat -> string) (err r : JsVal) (m c : option string)
    (st : State) (p : Pino) :
  pino (this st) = Some p ->
  accessor err = Ok (Some r) ->
  fatal uuid err m c st =
  (Ok tt, push_call (Messages.fatal_record err m c st p r) st).
Proof.
  intros Hp Hacc.
  destruct (accessor_present err r Hacc) as [Hn [Ht Hcall]].
  unfold fatal, bind, pino_logger. rewrite Hp.
  unfold lift. rewrite Hcall.
  unfold gets, get. rewrite Hn.
  rewrite (getTraceId_other uuid err st p Hp Hn Ht).
  reflexivity.
Qed.



(** *** A logger that was never connected *)

Lemma error_unconnected_run
    (ISE : JsVal -> JsVal) (Api : JsVal -> JsVal -> JsVal -> JsVal)
    (uuid : nat -> string) (err : JsVal) (m c : option string) (st : State) :
  pino (this st) = None ->
  error ISE Api uuid err m c st =
  match response_of ISE Api err with
  | Thrown e => (Thrown e, st)
  | Ok _ =>
      match type_literal (get_opt err "name") with
      | Thrown e => (Thrown e, st)
      | Ok _ =>
          (Thrown (TypeErrorExn
                     "Cannot read properties of undefined (reading 'logger')"),
           st)
      end
  end.
Proof.
  intros Hp. unfold error, bind, response_of. rewrite getErrorResponse_run.
  destruct (tests err) as [[a loose]|e]; [|reflexivity].
  destruct (strict_eq_str (get_opt err "name") ApiException_name) eqn:Hname.
  - apply strict_eq_str_true in Hname.
    destruct (named_value err _ Hname) as [Hn _].
    unfold lift, get, ret. rewrite Hn, Hname.
    cbn [type_literal to_primitive].
    unfold pino_logger. rewrite Hp. reflexivity.
  - destruct (first_tested err a loose) as [k|];
      cbn -[Luxon.toFormat Luxon.fromJSDate_setZone assign case_value type_literal].
    + rewrite case_value_run.
      destruct (case_result ISE Api k err); [|reflexivity].
      unfold lift.
      destruct (type_literal (get_opt err "name")); [|reflexivity].
      unfold pino_logger. rewrite Hp. reflexivity.
    + unfold lift.
      destruct (type_literal (get_opt err "name")); [|reflexivity].
      unfold pino_logger. rewrite Hp. reflexivity.
Qed.

Lemma error_unconnected
    (ISE : JsVal -> JsVal) (Api : JsVal -> JsVal -> JsVal -> JsVal)
    (uuid : nat -> string) (err : JsVal) (m c : option string) (st : State) :
  pino (this st) = None ->
  exists e, error ISE Api uuid err m c st = (Thrown e, st).
Proof.
  intros Hp. rewrite (error_unconnected_run ISE Api uuid err m c st Hp).
  destruct (response_of ISE Api err); [|eexists; reflexivity].
  destruct (type_literal (get_opt err "name")); eexists; reflexivity.
Qed.

Lemma fatal_unconnected (uuid : nat -> string) (err : JsVal)
    (m c : option string) (st : State) :
  pino (this st) = None ->
  exists what, fatal uuid err m c st = (Thrown (TypeErrorExn what), st).
Proof.
  intros Hp. unfold fatal, bind, pino_logger. rewrite Hp. eexists; reflexivity.
Qed.



(** *** What the logging operations leave alone *)

Lemma call_method_accessor (err r : JsVal) :
  call_method err "getResponse" = Ok r -> accessor err = Ok (Some r).
Proof.
  intros H. unfold accessor. rewrite H.
  unfold call_method, get in H.
  destruct (nullish err) eqn:Hn; [discriminate H|].
  rewrite (get_opt_get_prop err _ Hn).
  destruct (get_prop err "getResponse"); simpl in H; try discriminate H.
  reflexivity.
Qed.

(** X3.  Whatever the value and whatever the state, [error] and [fatal]
    either complete, having appended exactly one record at their level to
    the calls on pino, or throw and leave the state untouched.  Neither
    ever changes the service instance (application name, logger, bindings,
    index of the remote stream), the records already there, the clock or
    the zone; at most one identifier is drawn. *)
Theorem error_and_fatal_only_append :
  forall (ISE : JsVal -> JsVal) (Api : JsVal -> JsVal -> JsVal -> JsVal)
         (uuid : nat -> string) (err : JsVal) (m c : option string) (st : State),
    Messages.only_appends LError st (error ISE Api uuid err m c st)
    /\ Messages.only_appends LFatal st (fatal uuid err m c st).
Proof.
  intros ISE Api uuid err m c st. unfold Messages.only_appends. split.
  - destruct (pino (this st)) as [p|] eqn:Hp.
    + destruct (nullish err) eqn:Hn.
      * destruct (error_nullish_run ISE Api uuid err m c st p Hp Hn) as [w ->].
        reflexivity.
      * rewrite (error_run ISE Api uuid err m c st p Hp Hn).
        destruct (response_of ISE Api err) as [body|e]; [|reflexivity].
        destruct (type_literal (get_opt err "name")) as [ty|e]; [|reflexivity].
        unfold after_traceid.
        destruct (String.eqb (typeof err) "string"); simpl;
          (repeat split; try lia; eexists; split; reflexivity).
    + destruct (error_unconnected ISE Api uuid err m c st Hp) as [e ->].
      reflexivity.
  - destruct (pino (this st)) as [p|] eqn:Hp.
    + destruct (call_method err "getResponse") as [r|e] eqn:Hcall.
      * rewrite (fatal_run uuid err r m c st p Hp (call_method_accessor err r Hcall)).
        simpl. repeat split; try lia. eexists; split; reflexivity.
      * unfold fatal, bind, pino_logger, lift. rewrite Hp, Hcall. reflexivity.
    + destruct (fatal_unconnected uuid err m c st Hp) as [w ->]. reflexivity.
Qed.

(** *** The application name *)

(** X4.  [setApplication] changes the records emitted after it and none
    of those emitted before.  On a connected logger, whenever two errors
    logged around a call of [setApplication] both complete, the first
    record keeps the application the service had and the second carries
    the new one; and the same holds for the context, which defaults to
    the application name when no context, or an empty one, is given.  The
    three calls do complete for values that are neither [undefined] nor
    [null], expose no response accessor and whose name is no object. *)
Theorem setApplication_changes_later_records_only :
  forall (ISE : JsVal -> JsVal) (Api : JsVal -> JsVal -> JsVal -> JsVal)
         (uuid : nat -> string) (e1 e2 : JsVal) (m1 c1 m2 c2 : option string)
         (name : string) (st : State) (p : Pino),
    pino (this st) = Some p ->
    (forall st',
        (error ISE Api uuid e1 m1 c1 ;;;
         setApplication name ;;;
         error ISE Api uuid e2 m2 c2) st = (Ok tt, st') ->
        exists r1 r2,
          out (world st') = (out (world st) ++ [r1; r2])%list /\
          app (this st') = VStr name /\
          assoc "application" (obj r1) = Some (app (this st)) /\
          assoc "application" (obj r2) = Some (VStr name) /\
          assoc "context" (obj r1) = Some (Messages.context_of c1 (app (this st))) /\
          assoc "context" (obj r2) = Some (Messages.context_of c2 (VStr name)))
    /\ (nullish e1 = false -> is_object (get_opt e1 "name") = false ->
        typeof (get_opt e1 "getResponse") <> "function" ->
        nullish e2 = false -> is_object (get_opt e2 "name") = false ->
        typeof (get_opt e2 "getResponse") <> "function" ->
        exists st',
          (error ISE Api uuid e1 m1 c1 ;;;
           setApplication name ;;;
           error ISE Api uuid e2 m2 c2) st = (Ok tt, st')).
Proof.
  intros ISE Api uuid e1 e2 m1 c1 m2 c2 name st p Hp.
  assert (Hkeep : forall r,
            pino (this (set_app (VStr name) (push_call r (after_traceid e1 st)))) =
            Some p).
  { intros r. unfold after_traceid.
    destruct (String.eqb (typeof e1) "string"); exact Hp. }
  split.
  - intros st' Hrun. unfold bind at 1 in Hrun.
    destruct (nullish e1) eqn:Hn1.
    { destruct (error_nullish_run ISE Api uuid e1 m1 c1 st p Hp Hn1) as [w Hw].
      rewrite Hw in Hrun. discriminate Hrun. }
    rewrite (error_run ISE Api uuid e1 m1 c1 st p Hp Hn1) in Hrun.
    destruct (response_of ISE Api e1) as [b1|e]; [|discriminate Hrun].
    destruct (type_literal (get_opt e1 "name")) as [t1|e]; [|discriminate Hrun].
    unfold bind, setApplication, modify in Hrun.
    set (r1 := error_record e1 m1 c1 st b1 t1 (resolved_traceid uuid e1 st)) in *.
    set (st1 := set_app (VStr name) (push_call r1 (after_traceid e1 st))) in *.
    destruct (nullish e2) eqn:Hn2.
    { destruct (error_nullish_run ISE Api uuid e2 m2 c2 st1 p (Hkeep r1) Hn2)
        as [w Hw].
      rewrite Hw in Hrun. discriminate Hrun. }
    rewrite (error_run ISE Api uuid e2 m2 c2 st1 p (Hkeep r1) Hn2) in Hrun.
    destruct (response_of ISE Api e2) as [b2|e]; [|discriminate Hrun].
    destruct (type_literal (get_opt e2 "name")) as [t2|e]; [|discriminate Hrun].
    injection Hrun as <-.
    exists r1, (error_record e2 m2 c2 st1 b2 t2 (resolved_traceid uuid e2 st1)).
    split.
    { subst st1. unfold after_traceid.
      destruct (String.eqb (typeof e1) "string"), (String.eqb (typeof e2) "string");
        cbn [out world push_call set_app next_draw this];
        rewrite <- app_assoc; reflexivity. }
    split.
    { subst st1. unfold after_traceid.
      destruct (String.eqb (typeof e1) "string"), (String.eqb (typeof e2) "string");
        reflexivity. }
    subst r1.
    rewrite !error_record_application, !error_record_context, !find_truthy_context.
    subst st1. unfold after_traceid.
    destruct (String.eqb (typeof e1) "string"); repeat split; reflexivity.
  - intros Hn1 Hplain1 Hacc1 Hn2 Hplain2 Hacc2.
    destruct (response_of_without_accessor ISE Api e1 Hn1 Hplain1 Hacc1) as [b1 Hb1].
    destruct (response_of_without_accessor ISE Api e2 Hn2 Hplain2 Hacc2) as [b2 Hb2].
    unfold bind at 1.
    rewrite (error_run ISE Api uuid e1 m1 c1 st p Hp Hn1), Hb1,
      (type_literal_plain _ Hplain1).
    unfold bind, setApplication, modify.
    rewrite (error_run ISE Api uuid e2 m2 c2 _ p (Hkeep _) Hn2), Hb2,
      (type_literal_plain _ Hplain2).
    eexists. reflexivity.
Qed.

(** Witness: two plain errors around [setApplication "cats-api"]. *)
Lemma setApplication_changes_later_records_only_witness :
  exists r1 r2,
    out (world (snd ((Reference.error Reference.plain_error None None ;;;
                      setApplication "cats-api" ;;;
                      Reference.error Reference.range_error None (Some "Cats"))
                       Reference.ready))) = [r1; r2] /\
    assoc "application" (obj r1) = Some (VStr "main-api") /\
    assoc "application" (obj r2) = Some (VStr "cats-api") /\
    assoc "context" (obj r1) = Some (VStr "main-api") /\
    assoc "context" (obj r2) = Some (VStr "Cats").
Proof.
  destruct (setApplication_changes_later_records_only
              Reference.InternalServerErrorException_getResponse
              Reference.ApiException_getResponse Reference.uuid_source
              Reference.plain_error Reference.range_error
              None None None (Some "Cats") "cats-api" Reference.ready
              {| pino_level := LTrace; bindings := [] |} eq_refl)
    as [Hrecords Hcompletes].
  destruct Hcompletes as [st' Hrun];
    [reflexivity | reflexivity | simpl; discriminate
    | reflexivity | reflexivity | simpl; discriminate |].
  destruct (Hrecords st' Hrun) as [r1 [r2 [Hout [_ [A1 [A2 [C1 C2]]]]]]].
  exists r1, r2. unfold Reference.error. rewrite Hrun. cbn [snd].
  repeat split; assumption.
Defined.

(** *** The request bindings *)

Lemma fold_bind_other (serialize : string -> JsVal -> option JsVal)
    (k : string) (src dst : list (string * JsVal)) :
  ~ In k (map fst src) ->
  assoc k (fold_left (bind_one serialize) src dst) = assoc k dst.
Proof.
  revert dst. induction src as [|[k0 v0] rest IH]; intros dst Hnot; simpl.
  - reflexivity.
  - rewrite IH by (intros Hin; apply Hnot; now right).
    unfold bind_one. simpl.
    destruct (serialize k0 v0); [|reflexivity].
    apply assoc_set_prop_other. intros ->. apply Hnot. now left.
Qed.

Lemma fold_bind_unique (serialize : string -> JsVal -> option JsVal)
    (k : string) (v : JsVal) (src dst : list (string * JsVal)) :
  NoDup (map fst src) ->
  In (k, v) src ->
  assoc k (fold_left (bind_one serialize) src dst) =
  match serialize k v with
  | Some v' => Some v'
  | None => assoc k dst
  end.
Proof.
  revert dst. induction src as [|[k0 v0] rest IH]; intros dst Hnodup Hin.
  - contradiction.
  - simpl in Hnodup. inversion Hnodup as [|? ? Hfresh Hrest]. subst.
    destruct Hin as [Heq|Hin].
    + injection Heq as -> ->. simpl.
      rewrite fold_bind_other by assumption.
      unfold bind_one. simpl.
      destruct (serialize k v); [apply assoc_set_prop_same|reflexivity].
    + simpl. rewrite (IH _ Hrest Hin).
      destruct (serialize k v); [reflexivity|].
      unfold bind_one. simpl.
      destruct (serialize k0 v0); [|reflexivity].
      apply assoc_set_prop_other. intros ->.
      apply Hfresh. apply (in_map fst) in Hin. exact Hin.
Qed.

Lemma assoc_In (k : string) (v : JsVal) (props : list (string * JsVal)) :
  assoc k props = Some v -> In (k, v) props.
Proof.
  induction props as [|[k0 v0] rest IH]; simpl; [discriminate|].
  destruct (String.eqb k0 k) eqn:E.
  - intros [= ->]. apply String.eqb_eq in E. subst. now left.
  - intros H. right. now apply IH.
Qed.

Lemma request_props_keys (request : Request) (st : State) :
  map fst (Messages.request_props request st) = Messages.customProps_keys.
Proof. reflexivity. Qed.

Lemma customProps_keys_NoDup : NoDup Messages.customProps_keys.
Proof.
  unfold Messages.customProps_keys.
  repeat (constructor; [simpl; intuition discriminate|]). constructor.
Qed.

Lemma customProps_run (serialize : string -> JsVal -> option JsVal)
    (request : Request) (st : State) (p : Pino) :
  pino (this st) = Some p ->
  customProps serialize request st =
  (Ok (Messages.request_props request st),
   set_pino {| pino_level := pino_level p;
               bindings := fold_left (bind_one serialize)
                             (Messages.request_props request st) (bindings p) |}
     st).
Proof.
  intros Hp. unfold customProps, setBindings, bind, pino_logger. rewrite Hp.
  cbn -[Luxon.toFormat Luxon.fromJSDate_setZone fold_left].
  rewrite Hp. reflexivity.
Qed.

(** X5.  On a connected logger [customProps] completes, hands nothing to
    pino and draws no identifier; it keeps the level of the logger and
    every binding under another key than its five.  It hands
    [setBindings] the trace id, application, context and path that it
    returns: for each of them the binding becomes what pino gives back
    for the returned value, and the earlier binding stays when pino leaves
    the value out.  The trace id is the [traceid] header when that is
    truthy, else the request id; when the request id is what [genReqId]
    gives, that is the header or nothing. *)
Theorem customProps_binds_what_it_returns :
  forall (serialize : string -> JsVal -> option JsVal)
         (request : Request) (st : State) (p : Pino),
    pino (this st) = Some p ->
    exists props p',
      customProps serialize request st = (Ok props, set_pino p' st) /\
      world (set_pino p' st) = world st /\
      app (this (set_pino p' st)) = app (this st) /\
      streamToElastic (this (set_pino p' st)) = streamToElastic (this st) /\
      pino_level p' = pino_level p /\
      (forall k v v',
          In k ["traceid"; "application"; "context"; "path"] ->
          assoc k props = Some v -> serialize k v = Some v' ->
          assoc k (bindings p') = Some v') /\
      (forall k v,
          In k ["traceid"; "application"; "context"; "path"] ->
          assoc k props = Some v -> serialize k v = None ->
          assoc k (bindings p') = assoc k (bindings p)) /\
      (forall k, ~ In k Messages.customProps_keys ->
                 assoc k (bindings p') = assoc k (bindings p)) /\
      assoc "traceid" props =
        Some (find_truthy [req_headers_traceid request; req_id request]) /\
      (req_id request = Messages.genReqId request ->
       assoc "traceid" props = Some (find_truthy [req_headers_traceid request])) /\
      assoc "application" props = Some (app (this st)) /\
      assoc "context" props = Some (req_context request) /\
      assoc "path" props =
        Some (VStr (req_protocol request ++ "://" ++ req_headers_host request
                    ++ req_url request)).
Proof.
  intros serialize request st p Hp.
  exists (Messages.request_props request st),
    {| pino_level := pino_level p;
       bindings := fold_left (bind_one serialize)
                     (Messages.request_props request st) (bindings p) |}.
  split; [now apply customProps_run|].
  split; [reflexivity|]. split; [reflexivity|]. split; [reflexivity|].
  split; [reflexivity|].
  assert (Hnodup : NoDup (map fst (Messages.request_props request st)))
    by (rewrite request_props_keys; exact customProps_keys_NoDup).
  split.
  { intros k v v' _ Hv Hser. cbn [bindings].
    rewrite (fold_bind_unique serialize k v _ _ Hnodup (assoc_In _ _ _ Hv)).
    now rewrite Hser. }
  split.
  { intros k v _ Hv Hser. cbn [bindings].
    rewrite (fold_bind_unique serialize k v _ _ Hnodup (assoc_In _ _ _ Hv)).
    now rewrite Hser. }
  split.
  { intros k Hk. cbn [bindings]. apply fold_bind_other.
    now rewrite request_props_keys. }
  split; [reflexivity|].
  split.
  { intros Hid. unfold Messages.genReqId in Hid. simpl. rewrite Hid.
    unfold find_truthy. simpl.
    destruct (truthy (req_headers_traceid request)); reflexivity. }
  repeat split.
Qed.

(** Witness: after the traced request, a request without trace id, on the
    reference service: the returned trace id is [undefined], pino leaves
    it out, and the binding keeps [abc]. *)
Lemma customProps_binds_what_it_returns_witness :
  exists props st' p',
    Reference.customProps Reference.untraced_request Reference.bound =
    (Ok props, st') /\
    assoc "traceid" props = Some VUndefined /\
    pino (this st') = Some p' /\
    assoc "traceid" (bindings p') = Some (VStr "abc") /\
    assoc "path" (bindings p') = Some (VStr "http://localhost:3000/cats").
Proof.
  destruct (customProps_binds_what_it_returns Reference.pino_serialize
              Reference.untraced_request Reference.bound
              {| pino_level := LTrace;
                 bindings :=
                   [("traceid", VStr "abc"); ("application", VStr "main-api");
                    ("context", VStr "HealthController");
                    ("path", VStr "http://localhost:3000/health");
                    ("timestamp", VStr "15/05/2024 12:00:00")] |} eq_refl)
    as [props [p' [Hrun [_ [_ [_ [_ [Hbound [Hkept [_ [Htrace [_ [_ [_ Hpath]]]]]]]]]]]]]].
  exists props, (set_pino p' Reference.bound), p'.
  split; [exact Hrun|]. split; [exact Htrace|]. split; [reflexivity|].
  split.
  - rewrite (Hkept "traceid" VUndefined); [reflexivity | simpl; tauto
                                          | exact Htrace | reflexivity].
  - apply (Hbound "path" (VStr "http://localhost:3000/cats"));
      [simpl; tauto | exact Hpath | reflexivity].
Defined.

(** X6.  The trace id [getTraceId] resolves for a value is the same before
    and after [customProps] ran on a request, whatever the request: the
    binding it falls back to, [tranceId], is not among those [customProps]
    sets. *)
Theorem customProps_does_not_reach_getTraceId :
  forall (uuid : nat -> string) (serialize : string -> JsVal -> option JsVal)
         (request : Request) (err : JsVal) (st : State) (p : Pino),
    pino (this st) = Some p ->
    fst (getTraceId uuid err (snd (customProps serialize request st))) =
    fst (getTraceId uuid err st).
Proof.
  intros uuid serialize request err st p Hp.
  rewrite (customProps_run serialize request st p Hp). cbn [snd].
  destruct (String.eqb (typeof err) "string") eqn:Hs.
  - destruct err; try discriminate Hs. reflexivity.
  - apply String.eqb_neq in Hs.
    destruct (nullish err) eqn:Hn.
    + destruct err; try discriminate Hn; reflexivity.
    + rewrite (getTraceId_other uuid err
                 (set_pino
                    {| pino_level := pino_level p;
                       bindings := fold_left (bind_one serialize)
                                     (Messages.request_props request st)
                                     (bindings p) |} st)
                 {| pino_level := pino_level p;
                    bindings := fold_left (bind_one serialize)
                                  (Messages.request_props request st)
                                  (bindings p) |}
                 eq_refl Hn Hs).
      rewrite (getTraceId_other uuid err st p Hp Hn Hs).
      cbn [fst bindings]. unfold get_opt, get_prop. cbn [nullish].
      rewrite fold_bind_other; [reflexivity|].
      rewrite request_props_keys. simpl. intuition discriminate.
Qed.

(** Witness: a plain error before and after the traced request. *)
Lemma customProps_does_not_reach_getTraceId_witness :
  fst (Reference.getTraceId Reference.plain_error Reference.bound) = Ok VUndefined.
Proof.
  unfold Reference.bound, Reference.getTraceId, Reference.customProps.
  rewrite (customProps_does_not_reach_getTraceId Reference.uuid_source
             Reference.pino_serialize
             Reference.traced_request Reference.plain_error Reference.ready
             {| pino_level := LTrace; bindings := [] |} eq_refl).
  reflexivity.
Defined.

(** *** A response accessor that returns a string *)

Lemma response_of_string_accessor
    (ISE : JsVal -> JsVal) (Api : JsVal -> JsVal -> JsVal -> JsVal)
    (err : JsVal) (body : string) :
  accessor err = Ok (Some (VStr body)) ->
  is_object (get_opt err "name") = false ->
  get_opt err "name" <> VStr ApiException_name ->
  response_of ISE Api err =
  match call_method err "getStatus" with
  | Thrown e => Thrown e
  | Ok status =>
      Ok (Api (VStr body) (find_truthy [status; get_prop err "status"])
            (get_prop err "context"))
  end.
Proof.
  intros Hacc Hplain Hname.
  destruct (accessor_present err _ Hacc) as [Hn [Ht Hcall]].
  rewrite (response_of_plain ISE Api err Hplain), Hacc.
  destruct (strict_eq_str (get_opt err "name") ApiException_name) eqn:E.
  - apply strict_eq_str_true in E. contradiction.
  - unfold first_match, case_holds.
    apply String.eqb_neq in Ht. rewrite Ht. simpl.
    rewrite Hcall. reflexivity.
Qed.

(** X7.  On a connected logger, for a value whose name is no object and
    not [ApiException] and whose response accessor returns a string,
    [error] calls [getStatus]: when
    the value has no such function, or calling it throws, [error] throws
    and hands nothing to pino; when it returns, [error] emits one record
    with the fields of the application exception built from the string,
    the status returned (or else the [status] field of the value) and the
    [context] field of the value. *)
Theorem error_string_accessor_needs_getStatus :
  forall (ISE : JsVal -> JsVal) (Api : JsVal -> JsVal -> JsVal -> JsVal)
         (uuid : nat -> string) (err : JsVal) (body : string)
         (m c : option string) (st : State) (p : Pino),
    pino (this st) = Some p ->
    accessor err = Ok (Some (VStr body)) ->
    is_object (get_opt err "name") = false ->
    get_opt err "name" <> VStr ApiException_name ->
    (typeof (get_prop err "getStatus") <> "function" ->
     exists what, error ISE Api uuid err m c st = (Thrown (TypeErrorExn what), st))
    /\ (forall e, call_method err "getStatus" = Thrown e ->
        error ISE Api uuid err m c st = (Thrown e, st))
    /\ (forall status, call_method err "getStatus" = Ok status ->
        exists record,
          error ISE Api uuid err m c st = (Ok tt, push_call record st) /\
          level record = LError /\
          forall k, ~ In k written_keys ->
            assoc k (obj record) =
            assoc k (spread (Api (VStr body)
                               (find_truthy [status; get_prop err "status"])
                               (get_prop err "context")))).
Proof.
  intros ISE Api uuid err body m c st p Hp Hacc Hplain Hname.
  destruct (accessor_present err _ Hacc) as [Hn [Ht Hcall]].
  assert (Hafter : after_traceid err st = st).
  { unfold after_traceid. apply String.eqb_neq in Ht. now rewrite Ht. }
  rewrite (error_run ISE Api uuid err m c st p Hp Hn), Hafter.
  rewrite (type_literal_plain _ Hplain).
  rewrite (response_of_string_accessor ISE Api err body Hacc Hplain Hname).
  split; [|split].
  - intros Hfun. unfold call_method, get. rewrite Hn.
    destruct (get_prop err "getStatus"); simpl;
      try (eexists; reflexivity).
    exfalso. apply Hfun. reflexivity.
  - intros e He. rewrite He. reflexivity.
  - intros status Hs. rewrite Hs.
    eexists. split; [reflexivity|]. split; [reflexivity|].
    intros k Hk. now apply error_record_keeps.
Qed.

(** Witness: an exception with the string body [Forbidden], without
    [getStatus]. *)
Lemma error_string_accessor_needs_getStatus_witness :
  exists what,
    Reference.error Messages.forbidden_without_status None None Reference.ready =
    (Thrown (TypeErrorExn what), Reference.ready).
Proof.
  destruct (error_string_accessor_needs_getStatus
              Reference.InternalServerErrorException_getResponse
              Reference.ApiException_getResponse Reference.uuid_source
              Messages.forbidden_without_status "Forbidden" None None
              Reference.ready {| pino_level := LTrace; bindings := [] |}
              eq_refl eq_refl eq_refl) as [Hmissing _].
  - simpl. discriminate.
  - apply Hmissing. simpl. discriminate.
Defined.

(** *** The message operations *)

Lemma message_props_context (arg : Messages.MessageType) (h : Messages.Heap) :
  assoc "context" (Messages.message_props arg h) =
  Some (of_option (Messages.context arg)).
Proof.
  unfold Messages.message_props, assign. simpl. apply assoc_set_prop_same.
Qed.

Lemma message_props_other (arg : Messages.MessageType) (h : Messages.Heap)
    (k : string) :
  k <> "context" ->
  assoc k (Messages.message_props arg h) =
  assoc k (match Messages.obj arg with
           | Messages.Given r => h r
           | Messages.Omitted => []
           end).
Proof.
  intros Hk. unfold Messages.message_props, assign. simpl.
  now apply assoc_set_prop_other.
Qed.

(** X8.  On a connected logger [trace], [info] and [warn] complete and
    hand pino one record each, at level [trace], [info] and [warn], with
    the message in gray, green and yellow.  The record is the object the
    caller passed with [context] assigned, and the caller's object itself
    is changed the same way: its [context] is overwritten, by [undefined]
    when no context is given, and its other properties stay; no other
    object changes.  Without an object the record holds [context] alone. *)
Theorem message_operations_assign_context :
  forall (arg : Messages.MessageType) (s : Messages.Store) (p : Pino),
    pino (this (Messages.state s)) = Some p ->
    Messages.trace arg s =
      (Ok tt,
       {| Messages.state :=
            push_call (Messages.message_call LTrace Gray arg (Messages.heap s))
              (Messages.state s);
          Messages.heap := Messages.heap_after arg (Messages.heap s) |})
    /\ Messages.info arg s =
      (Ok tt,
       {| Messages.state :=
            push_call (Messages.message_call LInfo Green arg (Messages.heap s))
              (Messages.state s);
          Messages.heap := Messages.heap_after arg (Messages.heap s) |})
    /\ Messages.warn arg s =
      (Ok tt,
       {| Messages.state :=
            push_call (Messages.message_call LWarn Yellow arg (Messages.heap s))
              (Messages.state s);
          Messages.heap := Messages.heap_after arg (Messages.heap s) |})
    /\ assoc "context" (Messages.message_props arg (Messages.heap s)) =
       Some (of_option (Messages.context arg))
    /\ (forall r k,
          Messages.obj arg = Messages.Given r -> k <> "context" ->
          assoc k (Messages.message_props arg (Messages.heap s)) =
          assoc k (Messages.heap s r))
    /\ (forall r,
          Messages.obj arg = Messages.Given r ->
          Messages.heap_after arg (Messages.heap s) r =
          Messages.message_props arg (Messages.heap s))
    /\ (forall r,
          Messages.obj arg <> Messages.Given r ->
          Messages.heap_after arg (Messages.heap s) r = Messages.heap s r)
    /\ (Messages.obj arg = Messages.Omitted ->
        Messages.message_props arg (Messages.heap s) =
        [("context", of_option (Messages.context arg))]).
Proof.
  intros arg s p Hp.
  assert (Hop : forall lvl c,
    (Messages.hbind (Messages.assign_context arg) (fun props =>
     Messages.hbind (Messages.run pino_logger) (fun logger =>
     Messages.run (pino_log logger lvl props (c, VStr (Messages.message arg)))))) s =
    (Ok tt,
     {| Messages.state :=
          push_call (Messages.message_call lvl c arg (Messages.heap s))
            (Messages.state s);
        Messages.heap := Messages.heap_after arg (Messages.heap s) |})).
  { intros lvl c.
    unfold Messages.hbind, Messages.assign_context, Messages.run,
      Messages.heap_after, Messages.message_call, Messages.message_props,
      pino_logger.
    destruct (Messages.obj arg) as [r|]; cbn [Messages.state Messages.heap];
      rewrite Hp; reflexivity. }
  split; [apply Hop|]. split; [apply Hop|]. split; [apply Hop|].
  split; [apply message_props_context|].
  split.
  { intros r k Hr Hk. rewrite (message_props_other arg _ k Hk), Hr. reflexivity. }
  split.
  { intros r Hr. unfold Messages.heap_after, Messages.update.
    rewrite Hr, Nat.eqb_refl. reflexivity. }
  split.
  { intros r Hr. unfold Messages.heap_after, Messages.update.
    destruct (Messages.obj arg) as [r0|]; [|reflexivity].
    destruct (Nat.eqb r r0) eqn:E; [|reflexivity].
    apply Nat.eqb_eq in E. subst. contradiction. }
  intros Hom. unfold Messages.message_props. rewrite Hom. reflexivity.
Qed.

(** Witness: [info] with the caller's object at reference 0 and no
    context: the record and the caller's object lose the context they
    had. *)
Lemma message_operations_assign_context_witness :
  exists s',
    Messages.info
      {| Messages.message := "saved"; Messages.context := None;
         Messages.obj := Messages.Given 0 |}
      Messages.ready_store = (Ok tt, s') /\
    Messages.heap s' O = [("user", VStr "ana"); ("context", VUndefined)].
Proof.
  destruct (message_operations_assign_context
              {| Messages.message := "saved"; Messages.context := None;
                 Messages.obj := Messages.Given 0 |}
              Messages.ready_store {| pino_level := LTrace; bindings := [] |}
              eq_refl) as [_ [Hinfo _]].
  eexists. split; [exact Hinfo|]. reflexivity.
Defined.

(** X9.  On a service that was never connected [trace], [info] and [warn]
    throw a [TypeError] and hand nothing to pino, but only after they
    assigned [context] to the object of the caller, which stays changed. *)
Theorem message_operations_unconnected :
  forall (arg : Messages.MessageType) (s : Messages.Store),
    pino (this (Messages.state s)) = None ->
    exists what,
      Messages.trace arg s =
        (Thrown (TypeErrorExn what),
         {| Messages.state := Messages.state s;
            Messages.heap := Messages.heap_after arg (Messages.heap s) |}) /\
      Messages.info arg s =
        (Thrown (TypeErrorExn what),
         {| Messages.state := Messages.state s;
            Messages.heap := Messages.heap_after arg (Messages.heap s) |}) /\
      Messages.warn arg s =
        (Thrown (TypeErrorExn what),
         {| Messages.state := Messages.state s;
            Messages.heap := Messages.heap_after arg (Messages.heap s) |}).
Proof.
  intros arg s Hp. eexists.
  unfold Messages.trace, Messages.info, Messages.warn,
    Messages.hbind, Messages.assign_context, Messages.run,
    Messages.heap_after, Messages.message_props, pino_logger.
  destruct (Messages.obj arg) as [r|]; cbn [Messages.state Messages.heap];
    rewrite Hp; destruct s; repeat split; reflexivity.
Qed.

(** Witness: [warn] before [connect], on the caller's object at
    reference 0. *)
Lemma message_operations_unconnected_witness :
  exists what s',
    Messages.warn
      {| Messages.message := "slow"; Messages.context := Some "Cats";
         Messages.obj := Messages.Given 0 |}
      Messages.fresh_store = (Thrown (TypeErrorExn what), s') /\
    Messages.heap s' O = [("user", VStr "ana"); ("context", VStr "Cats")] /\
    out (world (Messages.state s')) = [].
Proof.
  destruct (message_operations_unconnected
              {| Messages.message := "slow"; Messages.context := Some "Cats";
                 Messages.obj := Messages.Given 0 |}
              Messages.fresh_store eq_refl) as [what [_ [_ Hwarn]]].
  exists what. eexists. split; [exact Hwarn|]. split; reflexivity.
Defined.

(** *** The access log messages *)

(** X10.  The message of a finished request and the level it is logged at
    agree: [customSuccessMessage] paints the outcome red exactly when
    [customLogLevel] gives [error] for the response without an error,
    that is from status 400 on, and green otherwise, silenced responses
    included; the status code closes the message.  A request that ends
    with an error attached is logged at level [error] with the red
    message of [customErrorMessage]. *)
Theorem customSuccessMessage_matches_level :
  forall (res : Response),
    (In (Messages.Painted Red "errro") (Messages.customSuccessMessage res) <->
     customLogLevel res VUndefined = LError)
    /\ (In (Messages.Painted Green "success") (Messages.customSuccessMessage res) <->
        customLogLevel res VUndefined <> LError)
    /\ (In (Messages.Painted Red "errro") (Messages.customSuccessMessage res) <->
        400 <= statusCode res)
    /\ last (Messages.customSuccessMessage res) (Messages.Plain "") =
       Messages.Plain (Messages.number_to_string (statusCode res))
    /\ (forall err, truthy err = true ->
        customLogLevel res err = LError /\
        In (Messages.Painted Red "error") (Messages.customErrorMessage err res)).
Proof.
  intros res.
  assert (Herr : forall err, truthy err = true ->
            customLogLevel res err = LError /\
            In (Messages.Painted Red "error") (Messages.customErrorMessage err res)).
  { intros err Ht. split; [|simpl; tauto].
    unfold customLogLevel. simpl. rewrite Ht.
    destruct (400 <=? statusCode res); reflexivity. }
  assert (Hmain :
    (In (Messages.Painted Red "errro") (Messages.customSuccessMessage res) <->
     customLogLevel res VUndefined = LError)
    /\ (In (Messages.Painted Green "success") (Messages.customSuccessMessage res) <->
        customLogLevel res VUndefined <> LError)
    /\ (In (Messages.Painted Red "errro") (Messages.customSuccessMessage res) <->
        400 <= statusCode res)
    /\ last (Messages.customSuccessMessage res) (Messages.Plain "") =
       Messages.Plain (Messages.number_to_string (statusCode res))).
  { unfold Messages.customSuccessMessage, customLogLevel.
    cbn -[Messages.number_to_string Z.leb].
    destruct (400 <=? statusCode res) eqn:H400;
      cbn -[Messages.number_to_string Z.leb].
    - apply Z.leb_le in H400.
      repeat split; try (intros; discriminate); try tauto; try lia.
      intros [H|[H|[H|[H|[]]]]]; discriminate.
    - apply Z.leb_gt in H400.
      assert (Hlvl : (if (300 <=? statusCode res) && ((statusCode res <=? 400) && true)
                      then LSilent else LInfo) <> LError)
        by (destruct ((300 <=? statusCode res) && ((statusCode res <=? 400) && true));
            discriminate).
      repeat split; try tauto; try lia;
        try (intros [H|[H|[H|[H|[]]]]]; discriminate);
        try (intros H; exfalso; exact (Hlvl H)). }
  destruct Hmain as [H1 [H2 [H3 H4]]].
  split; [exact H1|]. split; [exact H2|]. split; [exact H3|].
  split; [exact H4 | exact Herr].
Qed.

(** *** A response accessor that returns an object *)


